(** * Lima: guest agent event stream and host agent start-up

    A shallow embedding of
    - package [guestagent] (agent, [comparePorts], [compareSockets],
      [collectEvent], [isEventEmpty], [Events], [LocalPorts], [LocalSockets],
      [setWorthCheckingIPTablesRoutine]), and
    - package [start] ([Start], [watchHostAgentEvents]),
    followed by the properties proved about them.

    Conventions.
    - A Go slice is a [list]; the nil slice is [[]].  Every slice stored in an
      [api.Event] is grown by [append] from a nil slice, so there it is nil
      exactly when it is empty, which is what [reflect.DeepEqual] observes.
    - A Go [error] is an [option string]: [None] is [nil], [Some m] is an error
      whose [Error()] text is [m].
    - A Go [(value, error)] result is a pair: the callers below store the value
      even when the error is not nil.
    - A Go [map[string]V] is a [gmap string V]. *)

From stdpp Require Import gmap strings list fin_maps pretty.
From Stdlib Require Import ZArith.
From Stdlib.Strings Require Import Byte.

Open Scope Z_scope.

(** ** Go runtime and standard library *)

Module golang.

Definition error := option string.

(** [errors.New] *)
Definition errors_New (msg : string) : error := Some msg.

(** The operand of the verb [%w] of [fmt.Errorf]: the text of the wrapped
    error; a nil operand is printed as a bad-verb marker. *)
Definition fmt_w (e : error) : string :=
  match e with
  | Some m => m
  | None => "%!w(<nil>)"
  end.

(** A 64-bit signed integer kept in [Z]: reduction to the range
    [-2^63 .. 2^63-1]. *)
Definition wrap64 (z : Z) : Z := (z + 2 ^ 63) `mod` 2 ^ 64 - 2 ^ 63.

(** [time.Duration] is an int64 count of nanoseconds. *)
Definition Duration := Z.
Definition minDuration : Duration := - 2 ^ 63.
Definition maxDuration : Duration := 2 ^ 63 - 1.

(** [time.Time]: [None] is the zero value [time.Time{}]; [Some t] is a
    reading of [time.Now()], identified by its monotonic clock reading [t]
    in nanoseconds. *)
Definition Time := option Z.
Definition zeroTime : Time := None.

(** [time.subMono]: the difference of two monotonic readings, saturated. *)
Definition subMono (t u : Z) : Duration :=
  let d := wrap64 (t - u) in
  if (d <? 0) && (u <? t) then maxDuration
  else if (0 <? d) && (t <? u) then minDuration
  else d.

(** [time.Since t] evaluated when the monotonic clock reads [now].  The zero
    [Time] has no monotonic reading: the wall clocks are subtracted, and the
    distance from year 1 to the present is beyond the range of a
    [Duration], so the result is [maxDuration]. *)
Definition Since (now : Z) (t : Time) : Duration :=
  match t with
  | Some u => subMono now u
  | None => maxDuration
  end.

End golang.

(** ** Package [api] of the guest agent *)

Module api.

(** [IPPort] is declared in package [guestagent/api]; its two fields are the
    ones [LocalPorts] fills in.  [net.IP] is a byte slice. *)
Record IPPort : Type := mkIPPort {
  IP : list byte;
  Port : Z
}.

(** A rendering of an endpoint for the examples: the bytes of the address in
    decimal, separated by dots, then a colon and the port.  On a four-byte
    address this is the ip:port form of the spec. *)
Definition dottedString (x : IPPort) : string :=
  String.concat "." ((λ b, pretty (Byte.to_N b)) <$> IP x) +:+ ":" +:+ pretty (Port x).

(** Modelled from the spec: the declaration of [api.Event] (package
    [guestagent/api]) is missing.  The spec's ChangeEvent has a time, the
    ports added and removed, the sockets added and removed, and the errors;
    the field names are the ones [collectEvent] assigns. *)
Record Event : Type := mkEvent {
  Time : golang.Time;
  LocalPortsAdded : list IPPort;
  LocalPortsRemoved : list IPPort;
  LocalSocketsAdded : list string;
  LocalSocketsRemoved : list string;
  Errors : list string
}.

(** Modelled from the spec: the declaration of [api.Info] (package
    [guestagent/api]) is missing.  The spec's Info snapshot has the current
    ports and sockets; the field names are the ones [agent.Info] assigns. *)
Record Info : Type := mkInfo {
  LocalPorts : list IPPort;
  LocalSockets : list string
}.

(** The zero value, [var empty api.Event]. *)
Definition zeroEvent : Event := mkEvent golang.zeroTime [] [] [] [] [].

#[global] Instance byte_eq_dec : EqDecision byte := Byte.byte_eq_dec.

#[global] Instance IPPort_eq_dec : EqDecision IPPort.
Proof. solve_decision. Defined.

#[global] Instance Event_eq_dec : EqDecision Event.
Proof. solve_decision. Defined.

End api.

(** ** Packages read by [LocalPorts] and [LocalSockets]

  Their declarations are in packages of their own; the types below have
  the fields and the constants that the guest agent uses. *)

Module procnettcp.

Inductive Kind : Type := TCP | TCP6 | KindOther (k : string).

Inductive State : Type := TCPListen | StateOther (s : Z).

Record Entry : Type := mkEntry {
  Kind_ : Kind;
  State_ : State;
  IP : list byte;
  Port : Z (* uint16 *)
}.

End procnettcp.

Module iptables.

Record Entry : Type := mkEntry {
  IP : list byte;
  Port : Z
}.

End iptables.

Module procnetunix.

Inductive State : Type :=
| StateUnconnected | StateConnecting | StateConnected | StateOther (s : Z).

Record Entry : Type := mkEntry {
  State_ : State;
  Path : string
}.

End procnetunix.

(** ** Package [guestagent] *)

Module guestagent.

(** *** The tracker of [worthCheckingIPTables]

    [setWorthCheckingIPTablesRoutine] runs two loops that share the flag
    [a.worthCheckingIPTables] and the local variable [latestTrue]; every
    access is inside [a.worthCheckingIPTablesMu.Lock()], so each loop
    iteration is one atomic step on the pair. *)

Record tracker : Type := mkTracker {
  worthCheckingIPTables_ : bool;
  latestTrue : golang.Time
}.

(** [var latestTrue time.Time], and the zero value of the agent's flag. *)
Definition trackerInit : tracker := mkTracker false golang.zeroTime.

Inductive auditMsg : Type :=
| AUDIT_NETFILTER_CFG
| AuditOther (typ : Z).

(** What one iteration of either loop observes. *)
Inductive trackerEvent : Type :=
| IdleCheck (now : Z)                 (* the idle loop woke up at [now] *)
| Received (msg : auditMsg) (now : Z) (* [auditClient.Receive] returned [msg] *)
| ReceiveFailed.                      (* [auditClient.Receive] returned an error *)

(** The body of the idle loop after [time.Sleep(iptablesIdle)]. *)
Definition idleCheck (iptablesIdle : golang.Duration) (now : Z) (s : tracker) : tracker :=
  let elapsedSinceLastTrue := golang.Since now (latestTrue s) in
  if iptablesIdle <=? elapsedSinceLastTrue
  then mkTracker false (latestTrue s)
  else s.

(** The body of the receive loop. *)
Definition onReceive (msg : auditMsg) (now : Z) (s : tracker) : tracker :=
  match msg with
  | AUDIT_NETFILTER_CFG => mkTracker true (Some now)
  | AuditOther _ => s
  end.

Definition trackerStep (iptablesIdle : golang.Duration) (s : tracker) (e : trackerEvent) : tracker :=
  match e with
  | IdleCheck now => idleCheck iptablesIdle now s
  | Received msg now => onReceive msg now s
  | ReceiveFailed => s
  end.

(** The step relation of the two loops, and its runs. *)
Inductive step (iptablesIdle : golang.Duration) : tracker → trackerEvent → tracker → Prop :=
| step_idle_reset now s :
    iptablesIdle ≤ golang.Since now (latestTrue s) →
    step iptablesIdle s (IdleCheck now) (mkTracker false (latestTrue s))
| step_idle_keep now s :
    golang.Since now (latestTrue s) < iptablesIdle →
    step iptablesIdle s (IdleCheck now) s
| step_netfilter now s :
    step iptablesIdle s (Received AUDIT_NETFILTER_CFG now) (mkTracker true (Some now))
| step_other typ now s :
    step iptablesIdle s (Received (AuditOther typ) now) s
| step_receive_failed s :
    step iptablesIdle s ReceiveFailed s.

Inductive steps (iptablesIdle : golang.Duration) : tracker → list trackerEvent → tracker → Prop :=
| steps_nil s : steps iptablesIdle s [] s
| steps_cons s e s' es s'' :
    step iptablesIdle s e s' →
    steps iptablesIdle s' es s'' →
    steps iptablesIdle s (e :: es) s''.

Definition trackerRun (iptablesIdle : golang.Duration) (s : tracker) (es : list trackerEvent) : tracker :=
  fold_left (trackerStep iptablesIdle) es s.

(** The times of the idle checks among the events of a run. *)
Definition checkTimes (es : list trackerEvent) : list Z :=
  omap (λ e, match e with IdleCheck now => Some now | _ => None end) es.

(** An event that is not a true-setting notification. *)
Definition quiet (e : trackerEvent) : Prop :=
  match e with
  | Received AUDIT_NETFILTER_CFG _ => False
  | _ => True
  end.

(** The largest reading of the 64-bit monotonic clock. *)
Definition maxClock : Z := 2 ^ 63 - 1.

(** *** Diffs of two samples *)

Section compare.

(** [api.IPPort.String], declared with [IPPort] in package [guestagent/api]. *)
Variable String : api.IPPort → string.

(** The order in which [range] walks a map.  Go leaves it unspecified; the
    properties below assume only that it enumerates the entries of the map. *)
Variable rangeMap : gmap string bool → list (string * bool).

Definition comparePorts (old neww : list api.IPPort) : list api.IPPort * list api.IPPort :=
  let '(mRaw, mStillExist) :=
    fold_left (λ '(mRaw, mStillExist) f,
                 let k := String f in
                 (<[k:=f]> mRaw, <[k:=false]> mStillExist))
              old ((∅ : gmap string api.IPPort), (∅ : gmap string bool)) in
  let '(added, mStillExist) :=
    fold_left (λ '(added, mStillExist) f,
                 let k := String f in
                 (match mRaw !! k with
                  | Some _ => added
                  | None => added ++ [f]
                  end,
                  <[k:=true]> mStillExist))
              neww ([], mStillExist) in
  let removed :=
    fold_left (λ removed '(k, stillExist),
                 if negb stillExist
                 then match mRaw !! k with
                      | Some x => removed ++ [x]
                      | None => removed
                      end
                 else removed)
              (rangeMap mStillExist) [] in
  (added, removed).

Definition compareSockets (old neww : list string) : list string * list string :=
  let mRaw := (∅ : gmap string string) in
  let mStillExist :=
    fold_left (λ mStillExist k, <[k:=false]> mStillExist)
              old (∅ : gmap string bool) in
  let '(added, mStillExist) :=
    fold_left (λ '(added, mStillExist) k,
                 (match mStillExist !! k with
                  | Some _ => added
                  | None => added ++ [k]
                  end,
                  <[k:=true]> mStillExist))
              neww ([], mStillExist) in
  let removed :=
    fold_left (λ removed '(k, stillExist),
                 if negb stillExist
                 then match mRaw !! k with
                      | Some x => removed ++ [x]
                      | None => removed
                      end
                 else removed)
              (rangeMap mStillExist) [] in
  (added, removed).

End compare.

(** *** The sampler

    What the guest looks like during one polling cycle: the answers of the
    operating system and of the packages that read it. *)

Record world : Type := mkWorld {
  (* [native_endian.NativeEndian() == binary.BigEndian] *)
  bigEndian : bool;
  (* [procnettcp.ParseFiles()] *)
  tcpFiles : list procnettcp.Entry * golang.error;
  (* [iptables.GetPorts()] *)
  iptablesPorts : list iptables.Entry * golang.error;
  (* [procnetunix.ParseFile()] *)
  unixFile : list procnetunix.Entry * golang.error;
  (* [time.Now()] *)
  now : Z
}.

(** The fields of [agent] that the sampler reads and writes. *)
Record agent : Type := mkAgent {
  worthCheckingIPTables : bool;
  latestIPTables : list iptables.Entry
}.

(** The reads of kernel state that a call performs, in order. *)
Inductive read : Type :=
| ReadProcNetTCP   (* [procnettcp.ParseFiles] *)
| ReadIPTables     (* [iptables.GetPorts] *)
| ReadProcNetUnix. (* [procnetunix.ParseFile] *)

(** A method of [*agent]: it may update the agent and it logs its reads. *)
Definition M (A : Type) : Type := agent → list read → A * agent * list read.

Definition ret {A} (x : A) : M A := λ a t, (x, a, t).

Definition bind {A B} (m : M A) (k : A → M B) : M B :=
  λ a t, let '(x, a', t') := m a t in k x a' t'.

Definition get : M agent := λ a t, (a, a, t).

Definition put (a' : agent) : M unit := λ _ t, (tt, a', t).

Definition perform {A} (r : read) (x : A) : M A := λ a t, (x, a, t ++ [r]).

Local Notation "'let!' x ':=' m 'in' k" := (bind m (λ x, k))
  (at level 10, x name, m at level 200, k at level 200, only parsing).

Definition bigEndianMsg : string :=
  "big endian architecture is unsupported, because I don't know how /proc/net/tcp looks like on big endian hosts".

(** The first loop of [LocalPorts]: the listening TCP and TCP6 entries. *)
Definition listening (tcpParsed : list procnettcp.Entry) (res : list api.IPPort) : list api.IPPort :=
  fold_left (λ res f,
               match procnettcp.Kind_ f with
               | procnettcp.TCP | procnettcp.TCP6 =>
                   match procnettcp.State_ f with
                   | procnettcp.TCPListen =>
                       res ++ [api.mkIPPort (procnettcp.IP f) (procnettcp.Port f)]
                   | _ => res
                   end
               | _ => res
               end)
            tcpParsed res.

(** The last loop of [LocalPorts]: the packet-filter entries are appended
    unless their port is already in [res]. *)
Definition mergeIPTables (ipts : list iptables.Entry) (res : list api.IPPort) : list api.IPPort :=
  fold_left (λ res ipt,
               let found :=
                 fold_left (λ found re,
                              if api.Port re =? iptables.Port ipt then true else found)
                           res false in
               if negb found
               then res ++ [api.mkIPPort (iptables.IP ipt) (iptables.Port ipt)]
               else res)
            ipts res.

Definition LocalPorts (w : world) : M (list api.IPPort * golang.error) :=
  if bigEndian w then ret ([], golang.errors_New bigEndianMsg)
  else
    let res := [] in
    let! r := perform ReadProcNetTCP (tcpFiles w) in
    let '(tcpParsed, err) := r in
    match err with
    | Some _ => ret (res, err)
    | None =>
        let res := listening tcpParsed res in
        let! a := get in
        if worthCheckingIPTables a then
          let! r := perform ReadIPTables (iptablesPorts w) in
          let '(ipts, err) := r in
          match err with
          | Some _ => ret (res, err)
          | None =>
              let! _ := put (mkAgent (worthCheckingIPTables a) ipts) in
              ret (mergeIPTables ipts res, None)
          end
        else
          let ipts := latestIPTables a in
          ret (mergeIPTables ipts res, None)
    end.

(** The packet-filter entries that [LocalPorts] merges: a fresh answer of
    [iptables.GetPorts] when the flag is set, the cached one otherwise. *)
Definition iptsUsed (w : world) (a : agent) : list iptables.Entry :=
  if worthCheckingIPTables a then (iptablesPorts w).1 else latestIPTables a.

Definition LocalSockets (w : world) : M (list string * golang.error) :=
  let res := [] in
  let! r := perform ReadProcNetUnix (unixFile w) in
  let '(parsed, err) := r in
  match err with
  | None =>
      ret (fold_left (λ res f,
                        match procnetunix.State_ f with
                        | procnetunix.StateUnconnected
                        | procnetunix.StateConnecting
                        | procnetunix.StateConnected => res ++ [procnetunix.Path f]
                        | _ => res
                        end)
                     parsed res, err)
  | Some _ => ret (res, err)
  end.

(** [Info] returns a pointer: [None] is the nil pointer. *)
Definition Info (w : world) : M (option api.Info * golang.error) :=
  let! r := LocalPorts w in
  let '(localPorts, err) := r in
  match err with
  | Some _ => ret (None, err)
  | None =>
      let! r := LocalSockets w in
      let '(localSockets, err) := r in
      match err with
      | Some _ => ret (None, err)
      | None => ret (Some (api.mkInfo localPorts localSockets), None)
      end
  end.

(** *** The event stream *)

Record eventState : Type := mkEventState {
  ports : list api.IPPort;
  sockets : list string
}.

(** [var st eventState] *)
Definition zeroEventState : eventState := mkEventState [] [].

Definition isEventEmpty (ev : api.Event) : bool :=
  let empty := api.zeroEvent in
  (* ignore ev.Time *)
  let copied :=
    api.mkEvent golang.zeroTime
                (api.LocalPortsAdded ev) (api.LocalPortsRemoved ev)
                (api.LocalSocketsAdded ev) (api.LocalSocketsRemoved ev)
                (api.Errors ev) in
  bool_decide (empty = copied).

(** What the [select] at the end of a cycle of [Events] receives. *)
Inductive selected : Type :=
| CtxDone        (* [<-ctx.Done()] *)
| TickerClosed   (* [_, ok := <-tickerCh] with [ok] false *)
| Tick.          (* a tick *)

(** One polling cycle as [Events] meets it: the guest during the cycle, the
    value that the tracker has left in [a.worthCheckingIPTables] when the
    cycle starts, and what the [select] receives at its end. *)
Record cycle : Type := mkCycle {
  cycleWorld : world;
  cycleWorth : bool;
  cycleSelect : selected
}.

Definition trackerWrites (b : bool) : M unit :=
  let! a := get in put (mkAgent b (latestIPTables a)).

Section events.

Variable String : api.IPPort → string.
Variable rangeMap : gmap string bool → list (string * bool).

Definition collectEvent (w : world) (st : eventState) : M (api.Event * eventState) :=
  let ev := api.zeroEvent in
  let newSt := st in
  let! r := LocalPorts w in
  let '(newPorts, err) := r in
  let newSt := mkEventState newPorts (sockets newSt) in
  match err with
  | Some e =>
      let ev := api.mkEvent (Some (now w))
                            (api.LocalPortsAdded ev) (api.LocalPortsRemoved ev)
                            (api.LocalSocketsAdded ev) (api.LocalSocketsRemoved ev)
                            (api.Errors ev ++ [e]) in
      ret (ev, newSt)
  | None =>
      let '(portsAdded, portsRemoved) :=
        comparePorts String rangeMap (ports st) (ports newSt) in
      let ev := api.mkEvent (api.Time ev) portsAdded portsRemoved
                            (api.LocalSocketsAdded ev) (api.LocalSocketsRemoved ev)
                            (api.Errors ev) in
      let! r := LocalSockets w in
      let '(newSockets, err) := r in
      let newSt := mkEventState (ports newSt) newSockets in
      match err with
      | Some e =>
          let ev := api.mkEvent (Some (now w))
                                (api.LocalPortsAdded ev) (api.LocalPortsRemoved ev)
                                (api.LocalSocketsAdded ev) (api.LocalSocketsRemoved ev)
                                (api.Errors ev ++ [e]) in
          ret (ev, newSt)
      | None =>
          let '(socketsAdded, socketsRemoved) :=
            compareSockets rangeMap (sockets st) (sockets newSt) in
          let ev := api.mkEvent (Some (now w))
                                (api.LocalPortsAdded ev) (api.LocalPortsRemoved ev)
                                socketsAdded socketsRemoved
                                (api.Errors ev) in
          ret (ev, newSt)
      end
  end.

(** The body of the loop of [Events] up to the [select]: the state carried to
    the next cycle and the channel, to which [ch <- ev] appends. *)
Definition eventsCycle (w : world) (st : eventState) (ch : list api.Event)
  : M (eventState * list api.Event) :=
  let! r := collectEvent w st in
  let '(ev, st) := r in
  if negb (isEventEmpty ev) then ret (st, ch ++ [ev]) else ret (st, ch).

(** [Events] over the cycles that the ticker and the context allow.  When the
    list is used up the loop is waiting in its [select]. *)
Fixpoint eventsLoop (cycles : list cycle) (st : eventState) (ch : list api.Event)
  : M (list api.Event) :=
  match cycles with
  | [] => ret ch
  | c :: cycles =>
      let! _ := trackerWrites (cycleWorth c) in
      let! r := eventsCycle (cycleWorld c) st ch in
      let '(st, ch) := r in
      match cycleSelect c with
      | CtxDone => ret ch
      | TickerClosed => ret ch
      | Tick => eventsLoop cycles st ch
      end
  end.

Definition Events (cycles : list cycle) : M (list api.Event) :=
  eventsLoop cycles zeroEventState [].

End events.

End guestagent.

(** ** Package [hostagent/api] *)

Module hostagentapi.

(** Modelled from the spec: the declarations of [hostagentapi.Status] and
    [hostagentapi.Event] are missing.  The spec's
    LifecycleEvent has sshLocalPort, running, degraded, exiting and errors;
    the field names are the ones [watchHostAgentEvents] reads. *)
Record Status : Type := mkStatus {
  Running : bool;
  Degraded : bool;
  Exiting : bool;
  Errors : list string;
  SSHLocalPort : Z
}.

Record Event : Type := mkEvent {
  Status_ : Status
}.

(** Modelled from the spec: the body of [hostagentapi.WatchEvents] is
    missing.  It tails the standard-output log for the lifecycle events
    written since [begin] and hands them to [onEvent] one at a time, in
    order.  An event for which [onEvent] answers [true] is terminal: no
    further event is processed and the watch ends without an error.  When the
    watch deadline elapses or the stream ends before that, the watch ends with
    [atEnd] (nil, or the error of the tail).  [events] is the stream up to
    the deadline. *)
Fixpoint WatchEvents {S : Type} (events : list Event) (atEnd : golang.error)
    (onEvent : Event → S → bool * S) (s : S) : golang.error * S :=
  match events with
  | [] => (atEnd, s)
  | ev :: events =>
      let '(stop, s) := onEvent ev s in
      if stop then (None, s) else WatchEvents events atEnd onEvent s
  end.

End hostagentapi.

(** ** Package [start] *)

Module start.

Definition dquote : string := String (Ascii.ascii_of_nat 34) EmptyString.

Definition LimactlShellCmd (instName : string) : string :=
  let shellCmd := "limactl shell " +:+ instName in
  if bool_decide (instName = "default") then "lima" else shellCmd.

(** The lines that [watchHostAgentEvents] writes through [logrus]. *)
Inductive logLine : Type :=
| InfoSSHLocalPort (port : Z)
| ErrorStatusErrors (errs : list string)
| WarnDegraded (haStderrPath : string)
| InfoReady (shellCmd : string).

(** The lines that announce the SSH local port, and their number. *)
Definition isPortLine (l : logLine) : bool :=
  match l with
  | InfoSSHLocalPort _ => true
  | _ => false
  end.

Definition portLines (log : list logLine) : nat :=
  length (filter (λ l, isPortLine l = true) log).

(** The variables captured by the closure [onEvent], and the log. *)
Record watchState : Type := mkWatchState {
  printedSSHLocalPort : bool;
  receivedRunningEvent : bool;
  err : golang.error;
  logged : list logLine
}.

Section watch.

(** [fmt]'s verbs [%+v] on a [Status] and [%q] on a string. *)
Variable fmtStatus : hostagentapi.Status → string.
Variable fmtQ : string → string.

Definition exitingMsg (haStderrPath : string) (st : hostagentapi.Status) : string :=
  "exiting, status=" +:+ fmtStatus st +:+ " (hint: see " +:+ fmtQ haStderrPath +:+ ")".

Definition degradedMsg (st : hostagentapi.Status) : string :=
  "degraded, status=" +:+ fmtStatus st.

Definition notRunningMsg : string :=
  "did not receive an event with the " +:+ dquote +:+ "running" +:+ dquote +:+ " status".

Definition onEvent (instName haStderrPath : string) (ev : hostagentapi.Event)
    (s : watchState) : bool * watchState :=
  let status := hostagentapi.Status_ ev in
  let s :=
    if negb (printedSSHLocalPort s) && negb (hostagentapi.SSHLocalPort status =? 0)
    then mkWatchState true (receivedRunningEvent s) (err s)
                      (logged s ++ [InfoSSHLocalPort (hostagentapi.SSHLocalPort status)])
    else s in
  let s :=
    if (0 <? length (hostagentapi.Errors status))%nat
    then mkWatchState (printedSSHLocalPort s) (receivedRunningEvent s) (err s)
                      (logged s ++ [ErrorStatusErrors (hostagentapi.Errors status)])
    else s in
  if hostagentapi.Exiting status then
    (true, mkWatchState (printedSSHLocalPort s) (receivedRunningEvent s)
                        (Some (exitingMsg haStderrPath status)) (logged s))
  else if hostagentapi.Running status then
    let s := mkWatchState (printedSSHLocalPort s) true (err s) (logged s) in
    if hostagentapi.Degraded status then
      (true, mkWatchState (printedSSHLocalPort s) (receivedRunningEvent s)
                          (Some (degradedMsg status))
                          (logged s ++ [WarnDegraded haStderrPath]))
    else
      (true, mkWatchState (printedSSHLocalPort s) (receivedRunningEvent s)
                          None
                          (logged s ++ [InfoReady (LimactlShellCmd instName)]))
  else (false, s).

Definition watchInit : watchState := mkWatchState false false None [].

Definition watchHostAgentEvents (instName haStderrPath : string)
    (events : list hostagentapi.Event) (atEnd : golang.error) : golang.error * list logLine :=
  let '(xerr, s) :=
    hostagentapi.WatchEvents events atEnd (onEvent instName haStderrPath) watchInit in
  match xerr with
  | Some _ => (xerr, logged s)
  | None =>
      match err s with
      | Some _ => (err s, logged s)
      | None =>
          if negb (receivedRunningEvent s)
          then (golang.errors_New notRunningMsg, logged s)
          else (None, logged s)
      end
  end.

(** An event that ends the watch: exiting or running. *)
Definition terminal (ev : hostagentapi.Event) : bool :=
  hostagentapi.Exiting (hostagentapi.Status_ ev)
  || hostagentapi.Running (hostagentapi.Status_ ev).

(** The error that a terminal event leaves in [err]. *)
Definition terminalErr (haStderrPath : string) (ev : hostagentapi.Event) : golang.error :=
  let status := hostagentapi.Status_ ev in
  if hostagentapi.Exiting status then Some (exitingMsg haStderrPath status)
  else if hostagentapi.Degraded status then Some (degradedMsg status)
  else None.

End watch.

(** *** [Start] *)

(** [5 * time.Second], and how [%v] prints it. *)
Definition deadlineDuration : golang.Duration := 5 * 1000000000.
Definition deadlineDurationText : string := "5s".

(** One turn of the loop of [waitHostAgentStart]: whether [os.Stat(haPIDPath)]
    fails with [os.ErrNotExist], and the reading of [time.Now()]. *)
Record poll : Type := mkPoll {
  pidNotExist : bool;
  pollNow : Z
}.

(** The answers that [Start] gets from the file system, from the packages it
    calls and from the host agent process, in the order in which it asks. *)
Record startEnv : Type := mkStartEnv {
  instName : string;
  haPIDPath : string;
  haStderrPath : string;
  (* [errors.Is(err, os.ErrNotExist)] for [os.Stat(haPIDPath)] *)
  statNotExist : bool;
  loadYAML : golang.error;            (* [inst.LoadYAML()] *)
  sambaInitConfig : golang.error;     (* [samba.InitConfig] *)
  generateISO9660 : golang.error;     (* [cidata.GenerateISO9660] *)
  qemuEnsureDisk : golang.error;      (* [qemu.EnsureDisk] *)
  osExecutable : golang.error;        (* [os.Executable()] *)
  removeStdout : golang.error;        (* [os.RemoveAll(haStdoutPath)] *)
  removeStderr : golang.error;        (* [os.RemoveAll(haStderrPath)] *)
  createStdout : golang.error;        (* [os.Create(haStdoutPath)] *)
  createStderr : golang.error;        (* [os.Create(haStderrPath)] *)
  cmdStart : golang.error;            (* [haCmd.Start()] *)
  waitBegin : Z;                      (* [time.Now()] in [waitHostAgentStart] *)
  polls : list poll;
  events : list hostagentapi.Event;   (* the stream that the watcher tails *)
  watchAtEnd : golang.error;
  waitErr : golang.error;             (* [haCmd.Wait()] *)
  (* which case the [select] takes: [true] for [<-waitErrCh] *)
  waitResolvesFirst : bool
}.

Section startup.

Variable fmtStatus : hostagentapi.Status → string.
Variable fmtQ : string → string.

Definition ensureDisk (env : startEnv) : golang.error :=
  match generateISO9660 env with
  | Some e => Some e
  | None =>
      match qemuEnsureDisk env with
      | Some e => Some e
      | None => None
      end
  end.

(** [None]: the loop has not returned within the polls given. *)
Fixpoint waitHostAgentStartLoop (haPIDPath haStderrPath : string) (deadline : Z)
    (polls : list poll) : option golang.error :=
  match polls with
  | [] => None
  | p :: polls =>
      if negb (pidNotExist p) then Some None
      else if deadline <? pollNow p
      then Some (Some ("hostagent (" +:+ fmtQ haPIDPath +:+ ") did not start up in "
                       +:+ deadlineDurationText +:+ " (hint: see " +:+ fmtQ haStderrPath +:+ ")"))
      else waitHostAgentStartLoop haPIDPath haStderrPath deadline polls
  end.

Definition waitHostAgentStart (haPIDPath haStderrPath : string) (begin : Z)
    (polls : list poll) : option golang.error :=
  let deadline := begin + deadlineDuration in
  waitHostAgentStartLoop haPIDPath haStderrPath deadline polls.

Definition exitedMsg (waitErr : golang.error) : string :=
  "host agent process has exited: " +:+ golang.fmt_w waitErr.

(** A step of [Start] that returns its error when it is not nil. *)
Definition orReturn (e : golang.error) (k : option golang.error) : option golang.error :=
  match e with
  | Some _ => Some e
  | None => k
  end.

(** [None]: [Start] is still in the loop of [waitHostAgentStart]. *)
Definition Start (env : startEnv) : option golang.error :=
  if negb (statNotExist env)
  then Some (Some ("instance " +:+ fmtQ (instName env) +:+ " seems running (hint: remove "
                   +:+ fmtQ (haPIDPath env) +:+ " if the instance is not actually running)"))
  else
  orReturn (loadYAML env) (
  match sambaInitConfig env with
  | Some e => Some (Some ("failed to initialize samba: " +:+ e))
  | None =>
  orReturn (ensureDisk env) (
  orReturn (osExecutable env) (
  orReturn (removeStdout env) (
  orReturn (removeStderr env) (
  orReturn (createStdout env) (
  orReturn (createStderr env) (
  orReturn (cmdStart env) (
  match waitHostAgentStart (haPIDPath env) (haStderrPath env) (waitBegin env) (polls env) with
  | None => None
  | Some (Some e) => Some (Some e)
  | Some None =>
      if waitResolvesFirst env
      then (* waitErr should not be nil *)
        Some (Some (exitedMsg (waitErr env)))
      else (* watchErr can be nil *)
        Some (fst (watchHostAgentEvents fmtStatus fmtQ (instName env) (haStderrPath env)
                                         (events env) (watchAtEnd env)))
  end)))))))
  end).

(** Every step of [Start] before the [select] succeeds. *)
Definition reachesSelect (env : startEnv) : Prop :=
  statNotExist env = true ∧
  loadYAML env = None ∧
  sambaInitConfig env = None ∧
  generateISO9660 env = None ∧
  qemuEnsureDisk env = None ∧
  osExecutable env = None ∧
  removeStdout env = None ∧
  removeStderr env = None ∧
  createStdout env = None ∧
  createStderr env = None ∧
  cmdStart env = None ∧
  waitHostAgentStart (haPIDPath env) (haStderrPath env) (waitBegin env) (polls env)
  = Some None.

End startup.

End start.

(** ** Package [cidata]: the environment handed to the guest *)

Module cidata.

(** [strings.ToUpper] on a string of ASCII characters, which is all that
    [setupEnv] applies it to. *)
Definition toUpperAscii (c : Ascii.ascii) : Ascii.ascii :=
  let n := Ascii.nat_of_ascii c in
  if ((97 <=? n) && (n <=? 122))%nat then Ascii.ascii_of_nat (n - 32) else c.

Fixpoint ToUpper (s : string) : string :=
  match s with
  | EmptyString => EmptyString
  | String c s => String (toUpperAscii c) (ToUpper s)
  end.

Definition lowerVars : list string :=
  ["ftp_proxy"; "http_proxy"; "https_proxy"; "no_proxy"].

(** The lines that [setupEnv] writes through [logrus]. *)
Inductive logLine : Type :=
| InfoOverriding (name old value : string)
| WarnChanging (upperName old value lowerName : string).

Section setupEnv.

(** The order in which [range] walks [y.Env]. *)
Variable rangeEnv : gmap string string → list (string * string).

(** [proxySettings] is the answer of [osutil.ProxySettings()] (a map that is
    not nil), [yEnv] is [y.Env], and [osEnv] is the environment of the
    process, which [os.LookupEnv] reads. *)
Definition setupEnv (proxySettings : gmap string string * golang.error)
    (yEnv osEnv : gmap string string)
  : gmap string string * golang.error * list logLine :=
  (* Start with the proxy variables from the system settings. *)
  let '(env, err) := proxySettings in
  match err with
  | Some _ => (env, err, [])
  | None =>
      (* env.* settings from lima.yaml override system settings *)
      let env :=
        fold_left (λ env '(name, value), <[name:=value]> env) (rangeEnv yEnv) env in
      (* Current process environment setting override both *)
      let upperVars := ToUpper <$> lowerVars in
      let '(env, log) :=
        fold_left (λ '(env, log) name,
                     match osEnv !! name with
                     | Some value =>
                         let log :=
                           match env !! name with
                           | Some old =>
                               if bool_decide (value ≠ old)
                               then log ++ [InfoOverriding name old value]
                               else log
                           | None => log
                           end in
                         (<[name:=value]> env, log)
                     | None => (env, log)
                     end)
                  (lowerVars ++ upperVars) (env, []) in
      (* Make sure uppercase variants have the same value as lowercase ones. *)
      let '(env, log) :=
        fold_left (λ '(env, log) lowerName,
                     let upperName := ToUpper lowerName in
                     match env !! lowerName with
                     | Some lowerValue =>
                         let log :=
                           match env !! upperName with
                           | Some upperValue =>
                               if bool_decide (lowerValue ≠ upperValue)
                               then log ++ [WarnChanging upperName upperValue
                                                         lowerValue lowerName]
                               else log
                           | None => log
                           end in
                         (<[upperName:=lowerValue]> env, log)
                     | None =>
                         match env !! upperName with
                         | Some upperValue => (<[lowerName:=upperValue]> env, log)
                         | None => (env, log)
                         end
                     end)
                  lowerVars (env, log) in
      (env, None, log)
  end.

End setupEnv.

(** The value that the sources of a variable give it: the process
    environment first, then [y.Env], then the system proxy settings. *)
Definition pick (proxy yEnv osEnv : gmap string string) (name : string) : option string :=
  osEnv !! name ∪ (yEnv !! name ∪ proxy !! name).

End cidata.

(** ** Concrete guests and hosts for the examples *)

Module sample.

Definition localhost : list byte := [x7f; x00; x00; x01].
Definition anyhost : list byte := [x00; x00; x00; x00].

Definition p80 : api.IPPort := api.mkIPPort localhost 80.
Definition p443 : api.IPPort := api.mkIPPort localhost 443.
Definition p8080 : api.IPPort := api.mkIPPort anyhost 8080.

(** A guest that listens on 127.0.0.1:80, has an established connection on
    port 22, forwards the ports 8080 and 80 in its packet filter and has one
    connected socket. *)
Definition guest : guestagent.world :=
  guestagent.mkWorld false
    ([procnettcp.mkEntry procnettcp.TCP procnettcp.TCPListen localhost 80;
      procnettcp.mkEntry procnettcp.TCP (procnettcp.StateOther 1) localhost 22], None)
    ([iptables.mkEntry anyhost 8080; iptables.mkEntry anyhost 80], None)
    ([procnetunix.mkEntry procnetunix.StateConnected "/run/docker.sock"], None)
    1000.

(** The same guest on a big-endian machine. *)
Definition bigEndianGuest : guestagent.world :=
  guestagent.mkWorld true (guestagent.tcpFiles guest) (guestagent.iptablesPorts guest)
                     (guestagent.unixFile guest) (guestagent.now guest).

(** The same guest when the TCP tables cannot be read. *)
Definition tcpFails : guestagent.world :=
  guestagent.mkWorld false ([], Some "open /proc/net/tcp: permission denied")
                     (guestagent.iptablesPorts guest)
                     (guestagent.unixFile guest) (guestagent.now guest).

(** The same guest when the socket table cannot be read. *)
Definition unixFails : guestagent.world :=
  guestagent.mkWorld false (guestagent.tcpFiles guest) (guestagent.iptablesPorts guest)
                     ([], Some "open /proc/net/unix: permission denied")
                     (guestagent.now guest).

(** The same guest when the packet filter cannot be queried. *)
Definition iptablesFails : guestagent.world :=
  guestagent.mkWorld false (guestagent.tcpFiles guest)
                     ([], Some "iptables: exit status 1")
                     (guestagent.unixFile guest) (guestagent.now guest).

(** An agent whose flag is set and whose cache is empty. *)
Definition agent0 : guestagent.agent := guestagent.mkAgent true [].

(** The agent after one sample of [guest]. *)
Definition agent1 : guestagent.agent :=
  guestagent.mkAgent true [iptables.mkEntry anyhost 8080; iptables.mkEntry anyhost 80].

(** The state of the event stream after one cycle on [guest]. *)
Definition st1 : guestagent.eventState :=
  guestagent.mkEventState [p80; p8080] ["/run/docker.sock"].

(** [%q] on a string without special characters, and a stand-in for [%+v]. *)
Definition fmtQ (x : string) : string := start.dquote +:+ x +:+ start.dquote.
Definition fmtStatus (st : hostagentapi.Status) : string :=
  "{SSHLocalPort:" +:+ pretty (hostagentapi.SSHLocalPort st) +:+ "}".

(** Lifecycle events: the port is announced, the agent is running, the agent
    is running degraded, the agent exits. *)
Definition evPort : hostagentapi.Event :=
  hostagentapi.mkEvent (hostagentapi.mkStatus false false false [] 60022).
Definition evRunning : hostagentapi.Event :=
  hostagentapi.mkEvent (hostagentapi.mkStatus true false false [] 60022).
Definition evDegraded : hostagentapi.Event :=
  hostagentapi.mkEvent (hostagentapi.mkStatus true true false ["mount failed"] 60022).
Definition evExiting : hostagentapi.Event :=
  hostagentapi.mkEvent (hostagentapi.mkStatus false false true [] 0).

(** A host on which every step of [Start] succeeds, the pidfile shows up at
    the second poll, and the host agent process exits with status zero
    before the watcher has seen a terminal event. *)
Definition host : start.startEnv :=
  start.mkStartEnv "default" "/lima/default/ha.pid" "/lima/default/ha.stderr.log"
                   true None None None None None None None None None None
                   0 [start.mkPoll true 1000; start.mkPoll false 2000]
                   [evPort] None
                   None true.

(** The same host when the watcher resolves first, after the host agent has
    announced its port and reported that it is running. *)
Definition readyHost : start.startEnv :=
  start.mkStartEnv "default" "/lima/default/ha.pid" "/lima/default/ha.stderr.log"
                   true None None None None None None None None None None
                   0 [start.mkPoll true 1000; start.mkPoll false 2000]
                   [evPort; evRunning] None
                   None false.

(** System proxy settings, the [env] of lima.yaml and a process environment. *)
Definition proxySettings : gmap string string :=
  {[ "http_proxy" := "http://system:3128" ]}.
Definition yamlEnv : gmap string string :=
  {[ "HTTP_PROXY" := "http://yaml:3128"; "EDITOR" := "vi" ]}.
Definition processEnv : gmap string string :=
  {[ "HTTPS_PROXY" := "http://process:3128"; "EDITOR" := "emacs" ]}.

End sample.

(** * Properties *)

(** ** Diffs of two samples *)

Section compare_facts.

Variable String : api.IPPort → string.
Variable rangeMap : gmap string bool → list (string * bool).

(** [range] visits every entry of the map once, in some order. *)
Hypothesis rangeMap_perm : ∀ m, rangeMap m ≡ₚ map_to_list m.

Lemma elem_of_rangeMap (m : gmap string bool) (k : string) (b : bool) :
  (k, b) ∈ rangeMap m ↔ m !! k = Some b.
Proof. rewrite rangeMap_perm. apply elem_of_map_to_list. Qed.

(** The first loop of [comparePorts]. *)
Lemma comparePorts_old_loop (old : list api.IPPort) mRaw mStillExist :
  fold_left (λ '(mRaw, mStillExist) f,
               let k := String f in
               (<[k:=f]> mRaw, <[k:=false]> mStillExist))
            old ((∅ : gmap string api.IPPort), (∅ : gmap string bool))
  = (mRaw, mStillExist) →
  (∀ k x, mRaw !! k = Some x → String x = k ∧ x ∈ old) ∧
  (∀ k, is_Some (mRaw !! k) ↔ k ∈ String <$> old) ∧
  (∀ k, mStillExist !! k = if decide (k ∈ String <$> old) then Some false else None).
Proof.
  revert mRaw mStillExist.
  induction old as [|f old IH] using rev_ind; intros mRaw mStillExist.
  - simpl. intros [= <- <-]. split_and!.
    + intros k x. by rewrite lookup_empty.
    + intros k. rewrite lookup_empty. simpl. rewrite elem_of_nil.
      split; [by intros [? ?] | done].
    + intros k. apply lookup_empty.
  - rewrite fold_left_app. simpl.
    destruct (fold_left _ old _) as [mRaw' mStillExist'] eqn:E.
    intros [= <- <-].
    destruct (IH _ _ eq_refl) as (IH1 & IH2 & IH3).
    split_and!.
    + intros k x. rewrite lookup_insert. case_decide as Hk.
      * intros [= <-]. split; [done|]. apply elem_of_app. right. by left.
      * intros Hx. destruct (IH1 _ _ Hx) as [? ?]. split; [done|].
        apply elem_of_app. by left.
    + intros k. rewrite fmap_app, elem_of_app, lookup_insert. simpl.
      rewrite list_elem_of_singleton. case_decide as Hk.
      * split; [intros _; by right | intros _; by eexists].
      * rewrite IH2. split; [by left | by intros [?|?]].
    + intros k. rewrite lookup_insert, IH3. rewrite fmap_app. simpl.
      case_decide as Hk.
      * subst k. rewrite decide_True; [done|]. apply elem_of_app. right. by left.
      * apply decide_ext. rewrite elem_of_app, list_elem_of_singleton.
        split; [by left | by intros [?|?]].
Qed.

(** The second loop of [comparePorts], for any [mRaw]. *)
Lemma comparePorts_new_loop (mRaw : gmap string api.IPPort) (neww : list api.IPPort)
    (mStillExist0 : gmap string bool) added mStillExist :
  fold_left (λ '(added, mStillExist) f,
               let k := String f in
               (match mRaw !! k with
                | Some _ => added
                | None => added ++ [f]
                end,
                <[k:=true]> mStillExist))
            neww ([], mStillExist0)
  = (added, mStillExist) →
  (∀ x, x ∈ added ↔ x ∈ neww ∧ mRaw !! String x = None) ∧
  (∀ k, mStillExist !! k =
        if decide (k ∈ String <$> neww) then Some true else mStillExist0 !! k).
Proof.
  revert added mStillExist.
  induction neww as [|f neww IH] using rev_ind; intros added mStillExist.
  - simpl. intros [= <- <-]. split; [|done].
    intros x. rewrite !elem_of_nil. tauto.
  - rewrite fold_left_app. simpl.
    destruct (fold_left _ neww _) as [added' mStillExist'] eqn:E.
    intros [= <- <-].
    destruct (IH _ _ eq_refl) as (IH1 & IH2).
    split.
    + intros x. rewrite (elem_of_app neww), list_elem_of_singleton.
      destruct (mRaw !! String f) as [y|] eqn:Hf.
      * rewrite IH1. split; [tauto|].
        intros [[Hx | ->] Hnone]; [tauto | congruence].
      * rewrite elem_of_app, list_elem_of_singleton, IH1.
        split; [|tauto]. intros [? | ->]; tauto.
    + intros k. rewrite lookup_insert, IH2, fmap_app. simpl.
      case_decide as Hk.
      * subst k. rewrite decide_True; [done|]. apply elem_of_app. right. by left.
      * apply decide_ext. rewrite elem_of_app, list_elem_of_singleton.
        split; [by left | by intros [?|?]].
Qed.

(** The third loop, shared by [comparePorts] and [compareSockets]. *)
Lemma removed_loop {V : Type} (mRaw : gmap string V) (l : list (string * bool)) (x : V) :
  x ∈ fold_left (λ removed '(k, stillExist),
                   if negb stillExist
                   then match mRaw !! k with
                        | Some x => removed ++ [x]
                        | None => removed
                        end
                   else removed)
                l []
  ↔ ∃ k, (k, false) ∈ l ∧ mRaw !! k = Some x.
Proof.
  induction l as [|[k b] l IH] using rev_ind.
  - simpl. rewrite elem_of_nil. split; [done|].
    intros (k & Hk & _). by apply elem_of_nil in Hk.
  - rewrite fold_left_app. simpl.
    assert (Hsplit : (∃ k0, (k0, false) ∈ l ++ [(k, b)] ∧ mRaw !! k0 = Some x)
                     ↔ (∃ k0, (k0, false) ∈ l ∧ mRaw !! k0 = Some x)
                       ∨ (b = false ∧ mRaw !! k = Some x)).
    { split.
      - intros (k0 & Hin & Hl). apply elem_of_app in Hin as [Hin | Hin].
        + left. eauto.
        + apply list_elem_of_singleton in Hin. injection Hin as -> <-. by right.
      - intros [(k0 & Hin & Hl) | [-> Hl]].
        + exists k0. split; [|done]. apply elem_of_app. by left.
        + exists k. split; [|done]. apply elem_of_app. right. by left. }
    rewrite Hsplit, <- IH. clear Hsplit IH.
    destruct b; simpl.
    + split; [by left | by intros [? | [? _]]].
    + destruct (mRaw !! k) as [y|] eqn:Hk.
      * rewrite elem_of_app, list_elem_of_singleton.
        split.
        -- intros [? | ->]; [by left | by right].
        -- intros [? | [_ [= ->]]]; [by left | by right].
      * split; [by left | by intros [? | [_ ?]]].
Qed.

(** C3. Port diff correctness.  For all port lists [old] and [neww], with
    membership keyed by [String] (the form ip:port): an endpoint is in
    [added] exactly when it is in [neww] and its key is not a key of [old];
    the keys of [added] are the keys of [neww] minus the keys of [old]; every
    endpoint of [removed] comes from [old], and the keys of [removed] are the
    keys of [old] minus the keys of [neww]; [added] and [removed] share no
    key.  This holds for every order in which [range] walks the map. *)
Theorem comparePorts_diff (old neww : list api.IPPort) :
  let '(added, removed) := guestagent.comparePorts String rangeMap old neww in
  (∀ x, x ∈ added ↔ x ∈ neww ∧ String x ∉ String <$> old) ∧
  (∀ k, k ∈ String <$> added ↔ k ∈ String <$> neww ∧ k ∉ String <$> old) ∧
  (∀ x, x ∈ removed → x ∈ old) ∧
  (∀ k, k ∈ String <$> removed ↔ k ∈ String <$> old ∧ k ∉ String <$> neww) ∧
  (∀ k, ¬ (k ∈ String <$> added ∧ k ∈ String <$> removed)).
Proof.
  unfold guestagent.comparePorts.
  destruct (fold_left _ old _) as [mRaw mStillExist0] eqn:E1.
  destruct (fold_left _ neww _) as [added mStillExist] eqn:E2.
  apply comparePorts_old_loop in E1 as (Hraw & Hdom & Hse0).
  apply comparePorts_new_loop in E2 as (Hadded & Hse).
  set (removed := fold_left _ (rangeMap mStillExist) []).
  assert (Hnone : ∀ k, mRaw !! k = None ↔ k ∉ String <$> old).
  { intros k. rewrite <- Hdom, eq_None_not_Some. done. }
  assert (Hadd : ∀ x, x ∈ added ↔ x ∈ neww ∧ String x ∉ String <$> old).
  { intros x. rewrite Hadded, Hnone. done. }
  assert (Hrem : ∀ x, x ∈ removed ↔
                      ∃ k, (k ∈ String <$> old ∧ k ∉ String <$> neww) ∧ mRaw !! k = Some x).
  { intros x. unfold removed. rewrite removed_loop.
    apply exist_proper. intros k. rewrite elem_of_rangeMap, Hse, Hse0.
    repeat case_decide; intuition congruence. }
  assert (Hremk : ∀ k, k ∈ String <$> removed ↔ k ∈ String <$> old ∧ k ∉ String <$> neww).
  { intros k. rewrite list_elem_of_fmap. split.
    - intros (x & -> & Hx). apply Hrem in Hx as (k & Hk & Hx).
      by destruct (Hraw _ _ Hx) as [-> _].
    - intros [Hold Hnew]. destruct (proj2 (Hdom k) Hold) as [x Hx].
      exists x. split; [by destruct (Hraw _ _ Hx) | apply Hrem; eauto]. }
  split_and!; [done | | | done | ].
  - intros k. split.
    + intros Hk. apply list_elem_of_fmap in Hk as (x & -> & Hx).
      apply Hadd in Hx as [? ?]. split; [|done].
      apply list_elem_of_fmap. by exists x.
    + intros [Hk Hno]. apply list_elem_of_fmap in Hk as (x & -> & Hx).
      apply list_elem_of_fmap. exists x. split; [done|]. by apply Hadd.
  - intros x Hx. apply Hrem in Hx as (k & _ & Hx). by destruct (Hraw _ _ Hx).
  - intros k [Ha Hr]. apply Hremk in Hr as [Hold _].
    apply list_elem_of_fmap in Ha as (x & -> & Hx). apply Hadd in Hx as [_ Hx]. done.
Qed.

(** The second loop of [compareSockets]: unlike [comparePorts] it consults
    [mStillExist], so a path that occurs twice in [neww] is added once. *)
Lemma compareSockets_new_loop (neww : list string) (mStillExist0 : gmap string bool)
    added mStillExist :
  fold_left (λ '(added, mStillExist) k,
               (match mStillExist !! k with
                | Some _ => added
                | None => added ++ [k]
                end,
                <[k:=true]> mStillExist))
            neww ([], mStillExist0)
  = (added, mStillExist) →
  (∀ x, x ∈ added ↔ x ∈ neww ∧ mStillExist0 !! x = None) ∧
  (∀ k, mStillExist !! k = if decide (k ∈ neww) then Some true else mStillExist0 !! k).
Proof.
  revert added mStillExist.
  induction neww as [|f neww IH] using rev_ind; intros added mStillExist.
  - simpl. intros [= <- <-]. split; [|done].
    intros x. rewrite !elem_of_nil. tauto.
  - rewrite fold_left_app. simpl.
    destruct (fold_left _ neww _) as [added' mStillExist'] eqn:E.
    intros [= <- <-].
    destruct (IH _ _ eq_refl) as (IH1 & IH2).
    split.
    + intros x. rewrite (elem_of_app neww), list_elem_of_singleton.
      rewrite IH2. case_decide as Hf.
      * rewrite IH1. split; [tauto|].
        intros [[Hx | ->] Hnone]; by split.
      * destruct (mStillExist0 !! f) as [b|] eqn:Hf0.
        -- rewrite IH1. split; [tauto|].
           intros [[Hx | ->] Hnone]; [tauto | congruence].
        -- rewrite elem_of_app, list_elem_of_singleton, IH1.
           split; [|tauto]. intros [? | ->]; tauto.
    + intros k. rewrite lookup_insert, IH2.
      case_decide as Hk.
      * subst k. rewrite decide_True; [done|]. apply elem_of_app. right. by left.
      * apply decide_ext. rewrite elem_of_app, list_elem_of_singleton.
        split; [by left | by intros [?|?]].
Qed.

(** Two equal samples: [comparePorts] reports nothing. *)
Lemma comparePorts_same (l : list api.IPPort) :
  guestagent.comparePorts String rangeMap l l = ([], []).
Proof.
  unfold guestagent.comparePorts.
  destruct (fold_left _ l (∅, ∅)) as [mRaw mStillExist0] eqn:E1.
  destruct (fold_left _ l ([], mStillExist0)) as [added mStillExist] eqn:E2.
  apply comparePorts_old_loop in E1 as (_ & Hdom & Hse0).
  apply comparePorts_new_loop in E2 as (Hadded & Hse).
  f_equal.
  - apply elem_of_nil_inv. intros x Hx. apply Hadded in Hx as [Hx Hnone].
    assert (Hsome : is_Some (mRaw !! String x)).
    { apply Hdom, list_elem_of_fmap. by exists x. }
    rewrite Hnone in Hsome. by destruct Hsome.
  - apply elem_of_nil_inv. intros x Hx.
    apply removed_loop in Hx as (k & Hk & _).
    apply elem_of_rangeMap in Hk. rewrite Hse, Hse0 in Hk.
    by case_decide.
Qed.

(** The first loop of [compareSockets]. *)
Lemma compareSockets_old_loop (old : list string) (k : string) :
  fold_left (λ mStillExist k, <[k:=false]> mStillExist) old (∅ : gmap string bool) !! k
  = if decide (k ∈ old) then Some false else None.
Proof.
  induction old as [|f old IH] using rev_ind.
  - simpl. apply lookup_empty.
  - rewrite fold_left_app. simpl. rewrite lookup_insert, IH.
    destruct (decide (f = k)) as [->|Hk].
    + rewrite decide_True; [done|]. apply elem_of_app. right. by left.
    + apply decide_ext. rewrite elem_of_app, list_elem_of_singleton.
      split; [by left | by intros [?|?]].
Qed.

(** The added sockets are the paths of [neww] that are not in [old]. *)
Lemma compareSockets_added (old neww : list string) (x : string) :
  x ∈ (guestagent.compareSockets rangeMap old neww).1 ↔ x ∈ neww ∧ x ∉ old.
Proof.
  unfold guestagent.compareSockets.
  destruct (fold_left _ neww _) as [added mStillExist] eqn:E.
  apply compareSockets_new_loop in E as [Hadded _]. simpl.
  rewrite Hadded, compareSockets_old_loop.
  case_decide; intuition congruence.
Qed.

(** [mRaw] is never filled in [compareSockets], so its third loop finds no
    path to report: the removed list is nil whatever the two samples are. *)
Lemma compareSockets_removed_nil (old neww : list string) :
  (guestagent.compareSockets rangeMap old neww).2 = [].
Proof.
  unfold guestagent.compareSockets.
  destruct (fold_left _ neww _) as [added mStillExist]. simpl.
  apply elem_of_nil_inv. intros x Hx.
  apply removed_loop in Hx as (k & _ & Hk). by rewrite lookup_empty in Hk.
Qed.

(** Two equal samples: [compareSockets] reports nothing. *)
Lemma compareSockets_same (l : list string) :
  guestagent.compareSockets rangeMap l l = ([], []).
Proof.
  pose proof (compareSockets_removed_nil l l) as Hrem.
  pose proof (compareSockets_added l l) as Hadd.
  destruct (guestagent.compareSockets rangeMap l l) as [added removed].
  simpl in *. subst removed. f_equal.
  apply elem_of_nil_inv. intros x Hx. apply Hadd in Hx as [? ?]. done.
Qed.

(** C1. Socket diff correctness fails on the removed side.  The previous
    sample holds one socket and the new sample none: the path has gone, yet
    [compareSockets] returns an empty removed list, for every order in which
    [range] walks the map. *)
Theorem compareSockets_removed_lost :
  guestagent.compareSockets rangeMap ["/run/docker.sock"] [] = ([], []).
Proof.
  pose proof (compareSockets_removed_nil ["/run/docker.sock"] []) as Hrem.
  destruct (guestagent.compareSockets rangeMap ["/run/docker.sock"] [])
    as [added removed] eqn:E.
  simpl in Hrem. subst removed. f_equal.
  unfold guestagent.compareSockets in E. simpl in E. by injection E as <-.
Qed.

End compare_facts.

(** The example of the spec: port 443 starts to listen next to port 80. *)
Example comparePorts_example :
  guestagent.comparePorts api.dottedString map_to_list
    [api.mkIPPort [x7f; x00; x00; x01] 80]
    [api.mkIPPort [x7f; x00; x00; x01] 80; api.mkIPPort [x7f; x00; x00; x01] 443]
  = ([api.mkIPPort [x7f; x00; x00; x01] 443], []).
Proof. vm_compute. reflexivity. Qed.

(** A port that stops listening is reported, unlike a socket that goes away. *)
Example comparePorts_removed_example :
  guestagent.comparePorts api.dottedString map_to_list
    [api.mkIPPort [x7f; x00; x00; x01] 80] []
  = ([], [api.mkIPPort [x7f; x00; x00; x01] 80]).
Proof. vm_compute. reflexivity. Qed.

Lemma comparePorts_diff_witness :
  (∀ m : gmap string bool, map_to_list m ≡ₚ map_to_list m) ∧
  let '(added, removed) :=
    guestagent.comparePorts api.dottedString map_to_list
      [api.mkIPPort [x7f; x00; x00; x01] 80]
      [api.mkIPPort [x7f; x00; x00; x01] 80; api.mkIPPort [x7f; x00; x00; x01] 443] in
  (∀ x, x ∈ added ↔
        x ∈ [api.mkIPPort [x7f; x00; x00; x01] 80; api.mkIPPort [x7f; x00; x00; x01] 443]
        ∧ api.dottedString x ∉ api.dottedString <$> [api.mkIPPort [x7f; x00; x00; x01] 80]) ∧
  (∀ k, k ∈ api.dottedString <$> added ↔
        k ∈ api.dottedString <$>
              [api.mkIPPort [x7f; x00; x00; x01] 80; api.mkIPPort [x7f; x00; x00; x01] 443]
        ∧ k ∉ api.dottedString <$> [api.mkIPPort [x7f; x00; x00; x01] 80]) ∧
  (∀ x, x ∈ removed → x ∈ [api.mkIPPort [x7f; x00; x00; x01] 80]) ∧
  (∀ k, k ∈ api.dottedString <$> removed ↔
        k ∈ api.dottedString <$> [api.mkIPPort [x7f; x00; x00; x01] 80]
        ∧ k ∉ api.dottedString <$>
                [api.mkIPPort [x7f; x00; x00; x01] 80; api.mkIPPort [x7f; x00; x00; x01] 443]) ∧
  (∀ k, ¬ (k ∈ api.dottedString <$> added ∧ k ∈ api.dottedString <$> removed)).
Proof.
  split; [reflexivity|].
  exact (comparePorts_diff api.dottedString map_to_list (λ m, reflexivity _)
           [api.mkIPPort [x7f; x00; x00; x01] 80]
           [api.mkIPPort [x7f; x00; x00; x01] 80; api.mkIPPort [x7f; x00; x00; x01] 443]).
Defined.

(** ** The sampler *)

Section sampler_facts.

Import guestagent.

(** The inner loop of the merge: [found] says whether the port is in [res]. *)
Lemma found_spec (p : Z) (res : list api.IPPort) (found0 : bool) :
  fold_left (λ found re, if api.Port re =? p then true else found) res found0 = true
  ↔ found0 = true ∨ p ∈ api.Port <$> res.
Proof.
  revert found0. induction res as [|re res IH]; intros found0; simpl.
  - rewrite elem_of_nil. tauto.
  - rewrite IH, elem_of_cons. destruct (Z.eqb_spec (api.Port re) p) as [Heq|Hne].
    + split; [intros _; right; by left | by left].
    + split; [tauto|]. intros [?|[?|?]]; [tauto | congruence | tauto].
Qed.

(** What the merge appends to [res]. *)
Lemma mergeIPTables_spec (ipts : list iptables.Entry) (res : list api.IPPort) :
  ∃ extra,
    mergeIPTables ipts res = res ++ extra ∧
    (∀ x, x ∈ extra →
          ∃ ipt, ipt ∈ ipts ∧ x = api.mkIPPort (iptables.IP ipt) (iptables.Port ipt)) ∧
    (∀ x, x ∈ extra → api.Port x ∉ api.Port <$> res) ∧
    NoDup (api.Port <$> extra) ∧
    (∀ ipt, ipt ∈ ipts → iptables.Port ipt ∈ api.Port <$> res ++ extra).
Proof.
  unfold mergeIPTables.
  induction ipts as [|ipt ipts IH] using rev_ind.
  - exists []. simpl. rewrite app_nil_r. split_and!; [done| | |constructor|].
    + intros x Hx. by apply elem_of_nil in Hx.
    + intros x Hx. by apply elem_of_nil in Hx.
    + intros x Hx. by apply elem_of_nil in Hx.
  - destruct IH as (extra & Heq & Hfrom & Hfresh & Hnodup & Hcover).
    rewrite fold_left_app. simpl. rewrite Heq.
    destruct (fold_left _ (res ++ extra) false) eqn:Hfound; simpl.
    + apply found_spec in Hfound as [?|Hfound]; [done|].
      exists extra. split_and!; [done| | done | done |].
      * intros x Hx. destruct (Hfrom x Hx) as (i & Hi & ->).
        exists i. split; [|done]. apply elem_of_app. by left.
      * intros i Hi. apply elem_of_app in Hi as [Hi|Hi]; [by apply Hcover|].
        apply list_elem_of_singleton in Hi as ->. done.
    + assert (Hnew : iptables.Port ipt ∉ api.Port <$> res ++ extra).
      { intros Hin. assert (Ht : fold_left (λ found re,
                                    if api.Port re =? iptables.Port ipt then true else found)
                                  (res ++ extra) false = true).
        { apply found_spec. by right. }
        congruence. }
      rewrite fmap_app, elem_of_app in Hnew.
      exists (extra ++ [api.mkIPPort (iptables.IP ipt) (iptables.Port ipt)]).
      split_and!.
      * by rewrite app_assoc.
      * intros x Hx. apply elem_of_app in Hx as [Hx|Hx].
        -- destruct (Hfrom x Hx) as (i & Hi & ->).
           exists i. split; [|done]. apply elem_of_app. by left.
        -- apply list_elem_of_singleton in Hx as ->.
           exists ipt. split; [|done]. apply elem_of_app. right. by left.
      * intros x Hx. apply elem_of_app in Hx as [Hx|Hx]; [by apply Hfresh|].
        apply list_elem_of_singleton in Hx as ->. simpl. tauto.
      * rewrite fmap_app. simpl. apply NoDup_app. split_and!; [done| |].
        -- intros p Hp Hp'. apply list_elem_of_singleton in Hp' as ->. tauto.
        -- apply NoDup_singleton.
      * intros i Hi. rewrite app_assoc, fmap_app, elem_of_app.
        apply elem_of_app in Hi as [Hi|Hi]; [left; by apply Hcover|].
        apply list_elem_of_singleton in Hi as ->. right. simpl. by left.
Qed.

(** A successful [LocalPorts]: what it read and what it returns. *)
Lemma LocalPorts_ok (w : world) (a : agent) (t : list read) res a' t' :
  LocalPorts w a t = ((res, None), a', t') →
  bigEndian w = false ∧
  (tcpFiles w).2 = None ∧
  (worthCheckingIPTables a = true → (iptablesPorts w).2 = None) ∧
  res = mergeIPTables (iptsUsed w a) (listening (tcpFiles w).1 []) ∧
  a' = mkAgent (worthCheckingIPTables a) (iptsUsed w a).
Proof.
  unfold LocalPorts, iptsUsed, bind, perform, ret, get, put.
  destruct w as [be [tcp tcperr] [ipt ipterr] unix nw]; simpl.
  destruct be; [intros [= ? ?]; congruence|].
  destruct tcperr as [e|]; [intros [= ? ?]; congruence|].
  destruct a as [worth latest]; simpl.
  destruct worth.
  - destruct ipterr as [e|]; [intros [= ? ?]; congruence|].
    intros [= <- <- <-]. by split_and!.
  - intros [= <- <- <-]. split_and!; [done | done | | done | done].
    intros [=].
Qed.

(** [LocalPorts] never reads the socket table, and only appends to the log of
    reads. *)
Lemma LocalPorts_reads (w : world) (a : agent) (t : list read) r a' t' :
  LocalPorts w a t = (r, a', t') →
  ∃ rs, t' = t ++ rs ∧ ReadProcNetUnix ∉ rs.
Proof.
  unfold LocalPorts, bind, perform, ret, get, put.
  destruct w as [be [tcp tcperr] [ipt ipterr] unix nw]; simpl.
  destruct be.
  { intros [= <- <- <-]. exists []. rewrite app_nil_r. split; [done|].
    apply not_elem_of_nil. }
  destruct tcperr as [e|].
  { intros [= <- <- <-]. exists [ReadProcNetTCP]. split; [done|].
    intros Hin. apply list_elem_of_singleton in Hin. discriminate. }
  destruct a as [worth latest]; simpl. destruct worth.
  - assert (Hrs : ReadProcNetUnix ∉ [ReadProcNetTCP; ReadIPTables]).
    { intros Hin. apply elem_of_cons in Hin as [?|Hin]; [discriminate|].
      apply list_elem_of_singleton in Hin. discriminate. }
    destruct ipterr as [e|]; intros [= <- <- <-];
      exists [ReadProcNetTCP; ReadIPTables]; by rewrite <- app_assoc.
  - intros [= <- <- <-]. exists [ReadProcNetTCP]. split; [done|].
    intros Hin. apply list_elem_of_singleton in Hin. discriminate.
Qed.

(** C8. Big-endian rejection.  On a big-endian host [LocalPorts] returns the
    nil port list together with the unsupported-architecture error; it reads
    no connection table (the log of reads is unchanged) and leaves the agent
    as it was. *)
Theorem LocalPorts_bigEndian (w : world) (a : agent) (t : list read) :
  bigEndian w = true →
  LocalPorts w a t = (([], golang.errors_New bigEndianMsg), a, t).
Proof. intros Hbe. unfold LocalPorts. by rewrite Hbe. Qed.

(** C6. Packet-filter merge dedup.  When [LocalPorts] succeeds, its result is
    the direct-read list followed by entries taken from the packet-filter
    list; none of the appended entries has a port number that occurs in the
    direct-read list, no port number occurs twice among the appended entries,
    and every packet-filter port number occurs in the result. *)
Theorem LocalPorts_merge_dedup (w : world) (a : agent) (t : list read) res a' t' :
  LocalPorts w a t = ((res, None), a', t') →
  let direct := listening (tcpFiles w).1 [] in
  let ipts := iptsUsed w a in
  ∃ extra,
    res = direct ++ extra ∧
    (∀ x, x ∈ extra →
          ∃ ipt, ipt ∈ ipts ∧ x = api.mkIPPort (iptables.IP ipt) (iptables.Port ipt)) ∧
    (∀ x, x ∈ extra → api.Port x ∉ api.Port <$> direct) ∧
    NoDup (api.Port <$> extra) ∧
    (∀ ipt, ipt ∈ ipts → iptables.Port ipt ∈ api.Port <$> res).
Proof.
  intros Hok direct ipts.
  apply LocalPorts_ok in Hok as (_ & _ & _ & -> & _).
  destruct (mergeIPTables_spec ipts direct) as (extra & Heq & H1 & H2 & H3 & H4).
  exists extra. fold direct ipts. rewrite Heq. by split_and!.
Qed.

(** A failed [LocalSockets] returns the nil list. *)
Lemma LocalSockets_failed (w : world) (a : agent) (t : list read) ss e a' t' :
  LocalSockets w a t = ((ss, Some e), a', t') →
  ss = [] ∧ a' = a ∧ t' = t ++ [ReadProcNetUnix].
Proof.
  unfold LocalSockets, bind, perform, ret.
  destruct (unixFile w) as [parsed [e'|]]; by intros [= <- ? <- <-].
Qed.

End sampler_facts.

(** ** The event stream *)

Section events_facts.

Import guestagent.

Variable String : api.IPPort → string.
Variable rangeMap : gmap string bool → list (string * bool).
Hypothesis rangeMap_perm : ∀ m, rangeMap m ≡ₚ map_to_list m.

(** [collectEvent] when the port sample fails: the early return. *)
Lemma collectEvent_ports_failed (w : world) (st : eventState) (a : agent) (t : list read)
    ps e a1 t1 :
  LocalPorts w a t = ((ps, Some e), a1, t1) →
  collectEvent String rangeMap w st a t
  = ((api.mkEvent (Some (now w)) [] [] [] [] [e], mkEventState ps (sockets st)), a1, t1).
Proof. intros H. unfold collectEvent, bind. by rewrite H. Qed.

(** [collectEvent] when the port sample succeeds and the socket sample
    fails. *)
Lemma collectEvent_sockets_failed (w : world) (st : eventState) (a : agent) (t : list read)
    ps a1 t1 ss e a2 t2 :
  LocalPorts w a t = ((ps, None), a1, t1) →
  LocalSockets w a1 t1 = ((ss, Some e), a2, t2) →
  collectEvent String rangeMap w st a t
  = ((api.mkEvent (Some (now w))
                  (comparePorts String rangeMap (ports st) ps).1
                  (comparePorts String rangeMap (ports st) ps).2
                  [] [] [e],
      mkEventState ps ss), a2, t2).
Proof.
  intros Hp Hs. unfold collectEvent, bind, ret. rewrite Hp. simpl.
  destruct (comparePorts String rangeMap (ports st) ps) as [added removed].
  by rewrite Hs.
Qed.

(** [collectEvent] when both samples succeed. *)
Lemma collectEvent_ok (w : world) (st : eventState) (a : agent) (t : list read)
    ps a1 t1 ss a2 t2 :
  LocalPorts w a t = ((ps, None), a1, t1) →
  LocalSockets w a1 t1 = ((ss, None), a2, t2) →
  collectEvent String rangeMap w st a t
  = ((api.mkEvent (Some (now w))
                  (comparePorts String rangeMap (ports st) ps).1
                  (comparePorts String rangeMap (ports st) ps).2
                  (compareSockets rangeMap (sockets st) ss).1
                  (compareSockets rangeMap (sockets st) ss).2
                  [],
      mkEventState ps ss), a2, t2).
Proof.
  intros Hp Hs. unfold collectEvent, bind, ret. rewrite Hp. simpl.
  destruct (comparePorts String rangeMap (ports st) ps) as [added removed].
  rewrite Hs. simpl.
  by destruct (compareSockets rangeMap (sockets st) ss) as [sadded sremoved].
Qed.

(** C2, as the code has it.  (a) When the port sample fails, the event
    carries only the error and the time stamp, and the state carried forward
    keeps the previous sockets but takes for its ports the list that
    [LocalPorts] returned with the error.  (b) When the port sample succeeds
    and the socket sample fails, the event carries the error, the time stamp
    and the port diff already computed, and the state carried forward holds
    the new ports and the nil socket list that [LocalSockets] returned. *)
Theorem collectEvent_failed_sample (w : world) (st : eventState) (a : agent) (t : list read) :
  (∀ ps e a1 t1,
     LocalPorts w a t = ((ps, Some e), a1, t1) →
     collectEvent String rangeMap w st a t
     = ((api.mkEvent (Some (now w)) [] [] [] [] [e], mkEventState ps (sockets st)), a1, t1)) ∧
  (∀ ps a1 t1 ss e a2 t2,
     LocalPorts w a t = ((ps, None), a1, t1) →
     LocalSockets w a1 t1 = ((ss, Some e), a2, t2) →
     ss = [] ∧
     collectEvent String rangeMap w st a t
     = ((api.mkEvent (Some (now w))
                     (comparePorts String rangeMap (ports st) ps).1
                     (comparePorts String rangeMap (ports st) ps).2
                     [] [] [e],
         mkEventState ps []), a2, t2)).
Proof.
  split.
  - intros ps e a1 t1. apply collectEvent_ports_failed.
  - intros ps a1 t1 ss e a2 t2 Hp Hs.
    destruct (LocalSockets_failed _ _ _ _ _ _ _ Hs) as (-> & _ & _).
    split; [done|]. by eapply collectEvent_sockets_failed.
Qed.

(** C10. Port-failure short-circuit.  When the port sample fails,
    [collectEvent] returns an event whose error list is exactly the one
    error, whose four diffs are nil and whose time is the current time; the
    state keeps the previous sockets; the reads it performed are those of
    [LocalPorts] alone, and the socket table is not among them. *)
Theorem collectEvent_port_failure_short_circuit
    (w : world) (st : eventState) (a : agent) (t : list read) ps e a1 t1 :
  LocalPorts w a t = ((ps, Some e), a1, t1) →
  ∃ ev newSt rs,
    collectEvent String rangeMap w st a t = ((ev, newSt), a1, t ++ rs) ∧
    t1 = t ++ rs ∧
    (ReadProcNetUnix ∉ rs) ∧
    api.Errors ev = [e] ∧
    api.LocalPortsAdded ev = [] ∧ api.LocalPortsRemoved ev = [] ∧
    api.LocalSocketsAdded ev = [] ∧ api.LocalSocketsRemoved ev = [] ∧
    api.Time ev = Some (now w) ∧
    sockets newSt = sockets st ∧
    ports newSt = ps.
Proof.
  intros Hp. destruct (LocalPorts_reads _ _ _ _ _ _ Hp) as (rs & -> & Hrs).
  eexists _, _, rs. split; [by apply collectEvent_ports_failed|]. by split_and!.
Qed.

(** C7. No-op suppression.  When both samples succeed and return exactly the
    ports and the sockets of the previous state, the event computed by
    [collectEvent] has nothing but its time stamp, [isEventEmpty] accepts it,
    and the cycle of [Events] sends nothing on the channel and carries the
    same state forward. *)
Theorem eventsCycle_noop_suppressed
    (w : world) (st : eventState) (ch : list api.Event) (a : agent) (t : list read)
    a1 t1 a2 t2 :
  LocalPorts w a t = ((ports st, None), a1, t1) →
  LocalSockets w a1 t1 = ((sockets st, None), a2, t2) →
  collectEvent String rangeMap w st a t
  = ((api.mkEvent (Some (now w)) [] [] [] [] [], st), a2, t2) ∧
  isEventEmpty (api.mkEvent (Some (now w)) [] [] [] [] []) = true ∧
  eventsCycle String rangeMap w st ch a t = ((st, ch), a2, t2).
Proof.
  intros Hp Hs.
  assert (Hev : collectEvent String rangeMap w st a t
                = ((api.mkEvent (Some (now w)) [] [] [] [] [], st), a2, t2)).
  { rewrite (collectEvent_ok _ _ _ _ _ _ _ _ _ _ Hp Hs).
    rewrite (comparePorts_same String rangeMap rangeMap_perm).
    rewrite compareSockets_same. simpl. by destruct st. }
  split_and!; [done | done |].
  unfold eventsCycle, bind. by rewrite Hev.
Qed.

(** The same inside the loop: after a cycle that finds nothing new the loop
    goes on, or ends, with the channel as it was. *)
Lemma eventsLoop_noop_cycle
    (c : cycle) (cycles : list cycle) (st : eventState) (ch : list api.Event)
    (a : agent) (t : list read) a1 t1 a2 t2 :
  LocalPorts (cycleWorld c) (mkAgent (cycleWorth c) (latestIPTables a)) t
  = ((ports st, None), a1, t1) →
  LocalSockets (cycleWorld c) a1 t1 = ((sockets st, None), a2, t2) →
  eventsLoop String rangeMap (c :: cycles) st ch a t
  = match cycleSelect c with
    | Tick => eventsLoop String rangeMap cycles st ch a2 t2
    | _ => (ch, a2, t2)
    end.
Proof.
  intros Hp Hs.
  assert (Hcycle : eventsCycle String rangeMap (cycleWorld c) st ch
                     (mkAgent (cycleWorth c) (latestIPTables a)) t
                   = ((st, ch), a2, t2)).
  { pose proof (collectEvent_ok _ st _ _ _ _ _ _ _ _ Hp Hs) as Hev.
    rewrite (comparePorts_same String rangeMap rangeMap_perm) in Hev.
    rewrite compareSockets_same in Hev. simpl in Hev.
    unfold eventsCycle, bind. rewrite Hev. by destruct st. }
  simpl. unfold bind at 1. unfold trackerWrites, bind, get, put. simpl.
  unfold bind. rewrite Hcycle. by destruct (cycleSelect c).
Qed.

End events_facts.

Example LocalPorts_guest :
  guestagent.LocalPorts sample.guest sample.agent0 []
  = (([sample.p80; sample.p8080], None), sample.agent1,
     [guestagent.ReadProcNetTCP; guestagent.ReadIPTables]).
Proof. reflexivity. Qed.

Example collectEvent_first_cycle :
  guestagent.collectEvent api.dottedString map_to_list sample.guest
    guestagent.zeroEventState sample.agent0 []
  = ((api.mkEvent (Some 1000) [sample.p80; sample.p8080] [] ["/run/docker.sock"] [] [],
      sample.st1),
     sample.agent1,
     [guestagent.ReadProcNetTCP; guestagent.ReadIPTables; guestagent.ReadProcNetUnix]).
Proof. vm_compute. reflexivity. Qed.

Lemma LocalPorts_bigEndian_witness :
  guestagent.bigEndian sample.bigEndianGuest = true ∧
  guestagent.LocalPorts sample.bigEndianGuest sample.agent0 []
  = (([], golang.errors_New guestagent.bigEndianMsg), sample.agent0, []).
Proof.
  split; [reflexivity|].
  apply (LocalPorts_bigEndian sample.bigEndianGuest sample.agent0 []). reflexivity.
Defined.

(** On [sample.guest] the packet-filter entry for port 80 collides with the
    listening port 80 and is dropped; the entry for port 8080 is appended. *)
Lemma LocalPorts_merge_dedup_witness :
  ∃ extra,
    [sample.p80; sample.p8080]
    = guestagent.listening (guestagent.tcpFiles sample.guest).1 [] ++ extra ∧
    (∀ x, x ∈ extra →
          ∃ ipt, ipt ∈ guestagent.iptsUsed sample.guest sample.agent0 ∧
                 x = api.mkIPPort (iptables.IP ipt) (iptables.Port ipt)) ∧
    (∀ x, x ∈ extra →
          api.Port x ∉ api.Port <$> guestagent.listening (guestagent.tcpFiles sample.guest).1 []) ∧
    NoDup (api.Port <$> extra) ∧
    (∀ ipt, ipt ∈ guestagent.iptsUsed sample.guest sample.agent0 →
            iptables.Port ipt ∈ api.Port <$> [sample.p80; sample.p8080]).
Proof.
  apply (LocalPorts_merge_dedup sample.guest sample.agent0 []
           [sample.p80; sample.p8080] sample.agent1
           [guestagent.ReadProcNetTCP; guestagent.ReadIPTables]).
  reflexivity.
Defined.

(** A second cycle on the unchanged [sample.guest]: nothing is sent. *)
Lemma eventsCycle_noop_suppressed_witness :
  (∀ m : gmap string bool, map_to_list m ≡ₚ map_to_list m) ∧
  guestagent.collectEvent api.dottedString map_to_list sample.guest sample.st1 sample.agent1 []
  = ((api.mkEvent (Some 1000) [] [] [] [] [], sample.st1), sample.agent1,
     [guestagent.ReadProcNetTCP; guestagent.ReadIPTables; guestagent.ReadProcNetUnix]) ∧
  guestagent.isEventEmpty (api.mkEvent (Some 1000) [] [] [] [] []) = true ∧
  guestagent.eventsCycle api.dottedString map_to_list sample.guest sample.st1 [] sample.agent1 []
  = ((sample.st1, []), sample.agent1,
     [guestagent.ReadProcNetTCP; guestagent.ReadIPTables; guestagent.ReadProcNetUnix]).
Proof.
  split; [reflexivity|].
  apply (eventsCycle_noop_suppressed api.dottedString map_to_list (λ m, reflexivity _)
           sample.guest sample.st1 [] sample.agent1 []
           sample.agent1 [guestagent.ReadProcNetTCP; guestagent.ReadIPTables]
           sample.agent1
           [guestagent.ReadProcNetTCP; guestagent.ReadIPTables; guestagent.ReadProcNetUnix]).
  - reflexivity.
  - reflexivity.
Defined.

(** C2 as the spec states it fails.  On [sample.tcpFails] the port sample
    fails and the state carried forward has lost the ports of the previous
    state.  On [sample.unixFails] the socket sample fails, the event carries
    the added ports next to the error, and the state carried forward has the
    new ports and no sockets. *)
Lemma collectEvent_failed_sample_counterexample :
  (guestagent.LocalPorts sample.tcpFails sample.agent1 []
   = (([], Some "open /proc/net/tcp: permission denied"), sample.agent1,
      [guestagent.ReadProcNetTCP]) ∧
   (guestagent.collectEvent api.dottedString map_to_list sample.tcpFails sample.st1
                            sample.agent1 []).1.1.2
   = guestagent.mkEventState [] ["/run/docker.sock"] ∧
   guestagent.mkEventState [] ["/run/docker.sock"] ≠ sample.st1) ∧
  (guestagent.LocalSockets sample.unixFails sample.agent1
                           [guestagent.ReadProcNetTCP; guestagent.ReadIPTables]
   = (([], Some "open /proc/net/unix: permission denied"), sample.agent1,
      [guestagent.ReadProcNetTCP; guestagent.ReadIPTables; guestagent.ReadProcNetUnix]) ∧
   (guestagent.collectEvent api.dottedString map_to_list sample.unixFails
                            guestagent.zeroEventState sample.agent0 []).1.1
   = (api.mkEvent (Some 1000) [sample.p80; sample.p8080] [] [] []
                  ["open /proc/net/unix: permission denied"],
      guestagent.mkEventState [sample.p80; sample.p8080] []) ∧
   guestagent.mkEventState [sample.p80; sample.p8080] [] ≠ guestagent.zeroEventState).
Proof.
  split; (split_and!; [reflexivity | vm_compute; reflexivity | discriminate]).
Defined.

Lemma collectEvent_failed_sample_witness :
  guestagent.collectEvent api.dottedString map_to_list sample.tcpFails sample.st1
                          sample.agent1 []
  = ((api.mkEvent (Some 1000) [] [] [] [] ["open /proc/net/tcp: permission denied"],
      guestagent.mkEventState [] ["/run/docker.sock"]),
     sample.agent1, [guestagent.ReadProcNetTCP]) ∧
  ([] = ([] : list string) ∧
   guestagent.collectEvent api.dottedString map_to_list sample.unixFails
                           guestagent.zeroEventState sample.agent0 []
   = ((api.mkEvent (Some (guestagent.now sample.unixFails))
         (guestagent.comparePorts api.dottedString map_to_list
            (guestagent.ports guestagent.zeroEventState) [sample.p80; sample.p8080]).1
         (guestagent.comparePorts api.dottedString map_to_list
            (guestagent.ports guestagent.zeroEventState) [sample.p80; sample.p8080]).2
         [] [] ["open /proc/net/unix: permission denied"],
       guestagent.mkEventState [sample.p80; sample.p8080] []),
      sample.agent1,
      [guestagent.ReadProcNetTCP; guestagent.ReadIPTables; guestagent.ReadProcNetUnix])).
Proof.
  split.
  - apply (proj1 (collectEvent_failed_sample api.dottedString map_to_list
                    sample.tcpFails sample.st1 sample.agent1 [])).
    reflexivity.
  - apply (proj2 (collectEvent_failed_sample api.dottedString map_to_list
                    sample.unixFails guestagent.zeroEventState sample.agent0 [])
             [sample.p80; sample.p8080] sample.agent1
             [guestagent.ReadProcNetTCP; guestagent.ReadIPTables]).
    + reflexivity.
    + reflexivity.
Defined.

Lemma collectEvent_port_failure_short_circuit_witness :
  ∃ ev newSt rs,
    guestagent.collectEvent api.dottedString map_to_list sample.tcpFails sample.st1
                            sample.agent1 []
    = ((ev, newSt), sample.agent1, [] ++ rs) ∧
    [guestagent.ReadProcNetTCP] = [] ++ rs ∧
    (guestagent.ReadProcNetUnix ∉ rs) ∧
    api.Errors ev = ["open /proc/net/tcp: permission denied"] ∧
    api.LocalPortsAdded ev = [] ∧ api.LocalPortsRemoved ev = [] ∧
    api.LocalSocketsAdded ev = [] ∧ api.LocalSocketsRemoved ev = [] ∧
    api.Time ev = Some (guestagent.now sample.tcpFails) ∧
    guestagent.sockets newSt = guestagent.sockets sample.st1 ∧
    guestagent.ports newSt = [].
Proof.
  apply (collectEvent_port_failure_short_circuit api.dottedString map_to_list
           sample.tcpFails sample.st1 sample.agent1 []
           [] "open /proc/net/tcp: permission denied" sample.agent1
           [guestagent.ReadProcNetTCP]).
  reflexivity.
Defined.

(** ** The tracker of [worthCheckingIPTables] *)

Section tracker_facts.

Import guestagent.

(** Between two readings of the monotonic clock, the later one first,
    [subMono] is the true difference capped at [maxDuration]. *)
Lemma subMono_later (t u : Z) :
  golang.minDuration ≤ u → u ≤ t → t ≤ maxClock →
  golang.subMono t u = Z.min (t - u) golang.maxDuration.
Proof.
  unfold golang.subMono, golang.wrap64, golang.minDuration, golang.maxDuration, maxClock.
  change (2 ^ 63) with 9223372036854775808.
  change (2 ^ 64) with 18446744073709551616.
  intros Hu Hut Ht.
  destruct (Z_le_gt_dec (t - u) 9223372036854775807) as [Hsmall|Hbig].
  - rewrite Z.mod_small by lia.
    replace (t - u + 9223372036854775808 - 9223372036854775808) with (t - u) by lia.
    destruct (Z.ltb_spec (t - u) 0); [lia|]. simpl.
    destruct (Z.ltb_spec t u); [lia|]. rewrite andb_false_r. lia.
  - replace ((t - u + 9223372036854775808) `mod` 18446744073709551616)
      with (t - u + 9223372036854775808 - 18446744073709551616).
    + destruct (Z.ltb_spec (t - u + 9223372036854775808 - 18446744073709551616
                            - 9223372036854775808) 0); [|lia].
      destruct (Z.ltb_spec u t); [|lia]. simpl. lia.
    + apply Z.mod_unique_pos with (q := 1); lia.
Qed.

(** The idle check compares the true elapsed time with the idle time. *)
Lemma idleCheck_after (iptablesIdle t0 now : Z) (flag : bool) :
  iptablesIdle ≤ golang.maxDuration →
  golang.minDuration ≤ t0 → t0 ≤ now → now ≤ maxClock →
  idleCheck iptablesIdle now (mkTracker flag (Some t0))
  = mkTracker (flag && bool_decide (now < t0 + iptablesIdle)) (Some t0).
Proof.
  intros HT Ht0 Hle Hnow. unfold idleCheck. simpl.
  rewrite subMono_later by done.
  destruct (Z.leb_spec iptablesIdle (Z.min (now - t0) golang.maxDuration)) as [H|H].
  - rewrite bool_decide_eq_false_2 by lia. by rewrite andb_false_r.
  - rewrite bool_decide_eq_true_2 by lia. by rewrite andb_true_r.
Qed.

(** The step relation is the graph of [trackerStep]. *)
Lemma step_trackerStep (iptablesIdle : Z) (s : tracker) (e : trackerEvent) (s' : tracker) :
  step iptablesIdle s e s' ↔ s' = trackerStep iptablesIdle s e.
Proof.
  split.
  - intros Hstep.
    destruct Hstep as [c s0 H | c s0 H | c s0 | typ c s0 | s0]; simpl; try done;
      unfold idleCheck.
    + destruct (Z.leb_spec iptablesIdle (golang.Since c (latestTrue s0))); [done|lia].
    + destruct (Z.leb_spec iptablesIdle (golang.Since c (latestTrue s0))); [lia|done].
  - intros ->. destruct e as [c|[|typ] c|]; simpl; try constructor.
    unfold idleCheck.
    destruct (Z.leb_spec iptablesIdle (golang.Since c (latestTrue s)));
      by constructor.
Qed.

Lemma steps_trackerRun (iptablesIdle : Z) (s : tracker) (es : list trackerEvent) (s' : tracker) :
  steps iptablesIdle s es s' ↔ s' = trackerRun iptablesIdle s es.
Proof.
  revert s. induction es as [|e es IH]; intros s; simpl.
  - split; [by inversion 1 | intros ->; constructor].
  - split.
    + inversion 1 as [|? ? s1 ? ? Hstep Hsteps]; subst.
      apply step_trackerStep in Hstep as ->. by apply IH.
    + intros ->. econstructor; [by apply step_trackerStep | by apply IH].
Qed.

(** A run without true-setting notifications, from a state whose last
    true-setting notification was at [t0]. *)
Lemma trackerRun_quiet (iptablesIdle t0 : Z) (flag : bool) (es : list trackerEvent) :
  iptablesIdle ≤ golang.maxDuration →
  golang.minDuration ≤ t0 →
  Forall quiet es →
  Forall (λ now, t0 ≤ now ≤ maxClock) (checkTimes es) →
  trackerRun iptablesIdle (mkTracker flag (Some t0)) es
  = mkTracker (flag && bool_decide (Forall (λ now, now < t0 + iptablesIdle) (checkTimes es)))
              (Some t0).
Proof.
  intros HT Ht0. revert flag.
  induction es as [|e es IH]; intros flag Hquiet Hrange; simpl.
  - by rewrite andb_true_r.
  - apply Forall_cons in Hquiet as [He Hquiet].
    destruct e as [c|[|typ] c|]; simpl in *; try done.
    + apply Forall_cons in Hrange as [[Hlo Hhi] Hrange].
      rewrite idleCheck_after by done. rewrite IH by done.
      f_equal. rewrite <- andb_assoc. f_equal.
      destruct (decide (c < t0 + iptablesIdle)) as [Hnow|Hnow].
      * rewrite (bool_decide_eq_true_2 _ Hnow). simpl.
        apply bool_decide_ext. rewrite Forall_cons. tauto.
      * rewrite (bool_decide_eq_false_2 _ Hnow). simpl. symmetry.
        apply bool_decide_eq_false_2. rewrite Forall_cons. tauto.
    + by apply IH.
    + by apply IH.
Qed.

(** C9. Worthiness idle decay.  After a true-setting notification at [t0],
    followed by idle checks and by events that set nothing, the two loops
    reach exactly one state: the flag is true when every idle check so far
    came strictly before [t0 + iptablesIdle], and false as soon as one idle
    check came at or after it; [latestTrue] stays [t0]. *)
Theorem worthiness_idle_decay (iptablesIdle t0 : Z) (s : tracker)
    (es : list trackerEvent) (s' : tracker) :
  iptablesIdle ≤ golang.maxDuration →
  golang.minDuration ≤ t0 →
  Forall quiet es →
  Forall (λ now, t0 ≤ now ≤ maxClock) (checkTimes es) →
  steps iptablesIdle s (Received AUDIT_NETFILTER_CFG t0 :: es) s'
  ↔ s' = mkTracker (bool_decide (Forall (λ now, now < t0 + iptablesIdle) (checkTimes es)))
                   (Some t0).
Proof.
  intros HT Ht0 Hquiet Hrange.
  rewrite steps_trackerRun. simpl. fold (trackerRun iptablesIdle).
  by rewrite trackerRun_quiet.
Qed.

End tracker_facts.

(** An idle time of 30 s and a notification at second 1: the check at second
    30 leaves the flag set, the check at second 60 clears it. *)
Lemma worthiness_idle_decay_witness :
  30000000000 ≤ golang.maxDuration ∧
  golang.minDuration ≤ 1000000000 ∧
  guestagent.steps 30000000000 guestagent.trackerInit
    [guestagent.Received guestagent.AUDIT_NETFILTER_CFG 1000000000;
     guestagent.IdleCheck 30000000000]
    (guestagent.mkTracker true (Some 1000000000)) ∧
  guestagent.steps 30000000000 guestagent.trackerInit
    [guestagent.Received guestagent.AUDIT_NETFILTER_CFG 1000000000;
     guestagent.IdleCheck 30000000000;
     guestagent.Received (guestagent.AuditOther 1300) 40000000000;
     guestagent.IdleCheck 60000000000]
    (guestagent.mkTracker false (Some 1000000000)).
Proof.
  assert (HT : 30000000000 ≤ golang.maxDuration) by (by vm_compute).
  assert (Ht0 : golang.minDuration ≤ 1000000000) by (by vm_compute).
  split_and!; [done | done | |].
  - apply (worthiness_idle_decay 30000000000 1000000000 guestagent.trackerInit
             [guestagent.IdleCheck 30000000000]
             (guestagent.mkTracker true (Some 1000000000)) HT Ht0).
    + repeat constructor.
    + repeat constructor; by vm_compute.
    + reflexivity.
  - apply (worthiness_idle_decay 30000000000 1000000000 guestagent.trackerInit
             [guestagent.IdleCheck 30000000000;
              guestagent.Received (guestagent.AuditOther 1300) 40000000000;
              guestagent.IdleCheck 60000000000]
             (guestagent.mkTracker false (Some 1000000000)) HT Ht0).
    + repeat constructor.
    + repeat constructor; by vm_compute.
    + reflexivity.
Defined.

(** ** The watcher of the host agent and [Start] *)

Section start_facts.

Import start.

Variable fmtStatus : hostagentapi.Status → string.
Variable fmtQ : string → string.
Variables instName haStderrPath : string.

(** An event that is neither exiting nor running does not stop the watch and
    leaves [err] and [receivedRunningEvent] alone. *)
Lemma onEvent_not_terminal (ev : hostagentapi.Event) (s : watchState) :
  terminal ev = false →
  ∃ s', onEvent fmtStatus fmtQ instName haStderrPath ev s = (false, s') ∧
        err s' = err s ∧
        receivedRunningEvent s' = receivedRunningEvent s.
Proof.
  unfold terminal, onEvent. intros Hterm.
  apply orb_false_iff in Hterm as [-> ->].
  eexists. split; [reflexivity|].
  destruct (negb (printedSSHLocalPort s) && _); simpl;
    destruct (0 <? length _)%nat; done.
Qed.

(** A terminal event stops the watch and sets [err]; unless it is an exiting
    event it also sets [receivedRunningEvent]. *)
Lemma onEvent_terminal (ev : hostagentapi.Event) (s : watchState) :
  terminal ev = true →
  ∃ s', onEvent fmtStatus fmtQ instName haStderrPath ev s = (true, s') ∧
        err s' = terminalErr fmtStatus fmtQ haStderrPath ev ∧
        (hostagentapi.Exiting (hostagentapi.Status_ ev) = false →
         receivedRunningEvent s' = true).
Proof.
  unfold terminal, terminalErr, onEvent. intros Hterm.
  destruct (hostagentapi.Exiting (hostagentapi.Status_ ev)).
  - eexists. split; [reflexivity|]. done.
  - simpl in Hterm. rewrite Hterm.
    destruct (hostagentapi.Degraded (hostagentapi.Status_ ev));
      (eexists; split; [reflexivity|done]).
Qed.

(** The watch walks over the events that are not terminal. *)
Lemma WatchEvents_not_terminal (pre : list hostagentapi.Event) (s : watchState) :
  Forall (λ ev, terminal ev = false) pre →
  ∃ s', (∀ rest atEnd,
           hostagentapi.WatchEvents (pre ++ rest) atEnd
             (onEvent fmtStatus fmtQ instName haStderrPath) s
           = hostagentapi.WatchEvents rest atEnd
               (onEvent fmtStatus fmtQ instName haStderrPath) s') ∧
        err s' = err s ∧
        receivedRunningEvent s' = receivedRunningEvent s.
Proof.
  revert s. induction pre as [|ev pre IH]; intros s Hpre.
  - by exists s.
  - apply Forall_cons in Hpre as [Hev Hpre].
    destruct (onEvent_not_terminal ev s Hev) as (s1 & Hs1 & Herr1 & Hrun1).
    destruct (IH s1 Hpre) as (s' & Hs' & Herr & Hrun).
    exists s'. split_and!; [|congruence|congruence].
    intros rest atEnd. simpl. by rewrite Hs1, Hs'.
Qed.

(** C4. Lifecycle event folding.  Let [pre] be events with exiting = false
    and running = false.  (a) They never end the fold by themselves: when
    the stream ends after them the watch fails with the error of the stream
    or, if there is none, with the error that no event with the running
    status was received.  (b) The first event [t] after them with
    exiting = true or running = true decides the result, whatever follows
    it.  With exiting = true the result is the error whose text is
    exiting, status=, the status, and the hint to see the stderr log, named
    by its path; with running = true and degraded = true it is the error
    whose text is degraded, status= and the status; with running = true and
    degraded = false it is nil.  The result, log included, is the same as if
    the stream had ended at [t]. *)
Theorem watchHostAgentEvents_fold (pre : list hostagentapi.Event) :
  Forall (λ ev, hostagentapi.Exiting (hostagentapi.Status_ ev) = false ∧
                hostagentapi.Running (hostagentapi.Status_ ev) = false) pre →
  (∀ atEnd,
     (watchHostAgentEvents fmtStatus fmtQ instName haStderrPath pre atEnd).1
     = match atEnd with
       | Some e => Some e
       | None =>
           Some ("did not receive an event with the "
                 +:+ String (Ascii.ascii_of_nat 34)
                       ("running" +:+ String (Ascii.ascii_of_nat 34) " status"))
       end) ∧
  (∀ t post atEnd,
     hostagentapi.Exiting (hostagentapi.Status_ t) = true ∨
     hostagentapi.Running (hostagentapi.Status_ t) = true →
     (watchHostAgentEvents fmtStatus fmtQ instName haStderrPath (pre ++ t :: post) atEnd).1
     = (if hostagentapi.Exiting (hostagentapi.Status_ t)
        then Some ("exiting, status=" +:+ fmtStatus (hostagentapi.Status_ t)
                   +:+ " (hint: see " +:+ fmtQ haStderrPath +:+ ")")
        else if hostagentapi.Degraded (hostagentapi.Status_ t)
             then Some ("degraded, status=" +:+ fmtStatus (hostagentapi.Status_ t))
             else None) ∧
     watchHostAgentEvents fmtStatus fmtQ instName haStderrPath (pre ++ t :: post) atEnd
     = watchHostAgentEvents fmtStatus fmtQ instName haStderrPath (pre ++ [t]) None).
Proof.
  intros Hpre0.
  assert (Hpre : Forall (λ ev, terminal ev = false) pre).
  { eapply Forall_impl; [exact Hpre0|]. intros ev [He Hr]. unfold terminal.
    by rewrite He, Hr. }
  clear Hpre0.
  destruct (WatchEvents_not_terminal pre watchInit Hpre) as (s' & Hs' & Herr & Hrun).
  simpl in Herr, Hrun. split.
  - intros atEnd. unfold watchHostAgentEvents.
    rewrite <- (app_nil_r pre), Hs'. simpl.
    destruct atEnd as [e|]; [done|]. by rewrite Herr, Hrun.
  - intros t post atEnd Ht0.
    assert (Ht : terminal t = true).
    { unfold terminal. apply orb_true_iff. exact Ht0. }
    clear Ht0. unfold watchHostAgentEvents.
    rewrite !Hs'. simpl.
    destruct (onEvent_terminal t s' Ht) as (s'' & Hs'' & Herr'' & Hrun'').
    rewrite Hs''. split; [|done].
    transitivity (terminalErr fmtStatus fmtQ haStderrPath t); [|reflexivity].
    rewrite <- Herr''.
    destruct (err s'') as [e|] eqn:He; [done|].
    rewrite Hrun''; [done|].
    unfold terminalErr in Herr''.
    destruct (hostagentapi.Exiting (hostagentapi.Status_ t)); [done|done].
Qed.

(** C5. Uniformly fatal subprocess exit.  When every step of [Start] before
    the [select] has succeeded and the [select] takes the case of the exit
    wait, [Start] returns the error host agent process has exited, followed
    by the text of the wait error, whatever the wait error is; with a nil
    wait error (exit status zero) the result is still an error. *)
Theorem Start_exit_first_is_fatal (env : startEnv) :
  reachesSelect fmtQ env →
  waitResolvesFirst env = true →
  Start fmtStatus fmtQ env
  = Some (Some ("host agent process has exited: " +:+ golang.fmt_w (waitErr env))) ∧
  Start fmtStatus fmtQ env ≠ Some None.
Proof.
  intros (Hstat & Hyaml & Hsamba & Hiso & Hqemu & Hexe & Hrm1 & Hrm2 & Hc1 & Hc2
          & Hcmd & Hwait) Hfirst.
  assert (Heq : Start fmtStatus fmtQ env
                = Some (Some ("host agent process has exited: "
                              +:+ golang.fmt_w (waitErr env)))).
  { unfold Start, ensureDisk, orReturn.
    by rewrite Hstat, Hyaml, Hsamba, Hiso, Hqemu, Hexe, Hrm1, Hrm2, Hc1, Hc2, Hcmd,
         Hwait, Hfirst. }
  split; [done|]. by rewrite Heq.
Qed.

End start_facts.

Example watchHostAgentEvents_ready :
  start.watchHostAgentEvents sample.fmtStatus sample.fmtQ "default" "/lima/default/ha.stderr.log"
    [sample.evPort; sample.evRunning; sample.evExiting] None
  = (None, [start.InfoSSHLocalPort 60022; start.InfoReady "lima"]).
Proof. vm_compute. reflexivity. Qed.

Lemma watchHostAgentEvents_fold_witness :
  Forall (λ ev, hostagentapi.Exiting (hostagentapi.Status_ ev) = false ∧
                hostagentapi.Running (hostagentapi.Status_ ev) = false)
         [sample.evPort] ∧
  (start.watchHostAgentEvents sample.fmtStatus sample.fmtQ "default"
     "/lima/default/ha.stderr.log" [sample.evPort] None).1
  = Some ("did not receive an event with the "
          +:+ String (Ascii.ascii_of_nat 34)
                ("running" +:+ String (Ascii.ascii_of_nat 34) " status")) ∧
  (start.watchHostAgentEvents sample.fmtStatus sample.fmtQ "default"
     "/lima/default/ha.stderr.log"
     ([sample.evPort] ++ sample.evDegraded :: [sample.evRunning]) None).1
  = Some ("degraded, status=" +:+ sample.fmtStatus (hostagentapi.Status_ sample.evDegraded)) ∧
  (start.watchHostAgentEvents sample.fmtStatus sample.fmtQ "default"
     "/lima/default/ha.stderr.log"
     ([sample.evPort] ++ sample.evExiting :: [sample.evRunning]) None).1
  = Some ("exiting, status=" +:+ sample.fmtStatus (hostagentapi.Status_ sample.evExiting)
          +:+ " (hint: see " +:+ sample.fmtQ "/lima/default/ha.stderr.log" +:+ ")") ∧
  (start.watchHostAgentEvents sample.fmtStatus sample.fmtQ "default"
     "/lima/default/ha.stderr.log"
     ([sample.evPort] ++ sample.evRunning :: [sample.evExiting]) None).1
  = None.
Proof.
  assert (Hpre : Forall (λ ev, hostagentapi.Exiting (hostagentapi.Status_ ev) = false ∧
                               hostagentapi.Running (hostagentapi.Status_ ev) = false)
                        [sample.evPort]).
  { repeat constructor. }
  pose proof (watchHostAgentEvents_fold sample.fmtStatus sample.fmtQ "default"
                "/lima/default/ha.stderr.log" [sample.evPort] Hpre) as [Ha Hb].
  split_and!.
  - exact Hpre.
  - exact (Ha None).
  - exact (proj1 (Hb sample.evDegraded [sample.evRunning] None (or_intror eq_refl))).
  - exact (proj1 (Hb sample.evExiting [sample.evRunning] None (or_introl eq_refl))).
  - exact (proj1 (Hb sample.evRunning [sample.evExiting] None (or_intror eq_refl))).
Defined.

(** The host agent exits with status zero while [Start] waits: an error. *)
Lemma Start_exit_first_is_fatal_witness :
  start.reachesSelect sample.fmtQ sample.host ∧
  start.waitResolvesFirst sample.host = true ∧
  start.Start sample.fmtStatus sample.fmtQ sample.host
  = Some (Some ("host agent process has exited: " +:+ golang.fmt_w None)) ∧
  start.Start sample.fmtStatus sample.fmtQ sample.host ≠ Some None.
Proof.
  assert (Hreach : start.reachesSelect sample.fmtQ sample.host).
  { unfold start.reachesSelect. split_and!; reflexivity. }
  split_and!; [exact Hreach | reflexivity | |].
  - exact (proj1 (Start_exit_first_is_fatal sample.fmtStatus sample.fmtQ sample.host
                    Hreach eq_refl)).
  - exact (proj2 (Start_exit_first_is_fatal sample.fmtStatus sample.fmtQ sample.host
                    Hreach eq_refl)).
Defined.

(** * Further properties *)

(** ** More on the diffs *)

Section compare_more.

Variable String : api.IPPort → string.
Variable rangeMap : gmap string bool → list (string * bool).
Hypothesis rangeMap_perm : ∀ m, rangeMap m ≡ₚ map_to_list m.

(** The second loop of [comparePorts] keeps the entries of [neww] whose key
    is not in [mRaw], in their order and as often as they occur. *)
Lemma comparePorts_new_loop_filter (mRaw : gmap string api.IPPort) (neww : list api.IPPort)
    (mStillExist0 : gmap string bool) :
  (fold_left (λ '(added, mStillExist) f,
                let k := String f in
                (match mRaw !! k with
                 | Some _ => added
                 | None => added ++ [f]
                 end,
                 <[k:=true]> mStillExist))
             neww ([], mStillExist0)).1
  = filter (λ f, mRaw !! String f = None) neww.
Proof.
  induction neww as [|f neww IH] using rev_ind; [done|].
  rewrite fold_left_app, filter_app. simpl.
  destruct (fold_left _ neww _) as [added mStillExist]. simpl in *. subst added.
  rewrite filter_cons, filter_nil.
  destruct (mRaw !! String f) as [y|] eqn:Hf.
  - rewrite decide_False by done. by rewrite app_nil_r.
  - by rewrite decide_True.
Qed.

(** X1. The added ports are the sublist of the new sample that [filter]
    selects: the endpoints whose key is not a key of the old sample, in the
    order of the new sample and as often as they occur there. *)
Theorem comparePorts_added_filter (old neww : list api.IPPort) :
  (guestagent.comparePorts String rangeMap old neww).1
  = filter (λ f, String f ∉ String <$> old) neww.
Proof.
  unfold guestagent.comparePorts.
  destruct (fold_left _ old _) as [mRaw mStillExist0] eqn:E1.
  apply comparePorts_old_loop in E1 as (_ & Hdom & _).
  pose proof (comparePorts_new_loop_filter mRaw neww mStillExist0) as Hfilter.
  destruct (fold_left _ neww _) as [added mStillExist]. simpl in *. subst added.
  apply list_filter_iff. intros f. rewrite <- Hdom, eq_None_not_Some. done.
Qed.

(** The third loop as an [omap] over the entries that [range] visits. *)
Lemma removed_loop_omap {V : Type} (mRaw : gmap string V) (l : list (string * bool)) :
  fold_left (λ removed '(k, stillExist),
               if negb stillExist
               then match mRaw !! k with
                    | Some x => removed ++ [x]
                    | None => removed
                    end
               else removed)
            l []
  = omap (λ '(k, stillExist), if negb stillExist then mRaw !! k else None) l.
Proof.
  induction l as [|[k b] l IH] using rev_ind; [done|].
  rewrite fold_left_app, omap_app, IH. simpl.
  destruct b; simpl; [by rewrite app_nil_r|].
  destruct (mRaw !! k); simpl; [done | by rewrite app_nil_r].
Qed.

(** Keys of values found through their own key form a sublist of the keys
    visited. *)
Lemma omap_keys_sublist (mRaw : gmap string api.IPPort) (l : list (string * bool)) :
  (∀ k x, mRaw !! k = Some x → String x = k) →
  String <$> omap (λ '(k, stillExist), if negb stillExist then mRaw !! k else None) l
  `sublist_of` l.*1.
Proof.
  intros Hraw. induction l as [|[k b] l IH]; simpl; [done|].
  destruct b; simpl; [by apply sublist_cons|].
  destruct (mRaw !! k) as [x|] eqn:Hk; simpl; [|by apply sublist_cons].
  rewrite (Hraw _ _ Hk). by apply sublist_skip.
Qed.

(** X2. The removed ports hold every key at most once, however often an
    endpoint with that key occurs in the old sample. *)
Theorem comparePorts_removed_distinct (old neww : list api.IPPort) :
  NoDup (String <$> (guestagent.comparePorts String rangeMap old neww).2).
Proof.
  unfold guestagent.comparePorts.
  destruct (fold_left _ old _) as [mRaw mStillExist0] eqn:E1.
  apply comparePorts_old_loop in E1 as (Hraw & _ & _).
  destruct (fold_left _ neww _) as [added mStillExist]. simpl.
  rewrite removed_loop_omap.
  apply (sublist_NoDup _ (rangeMap mStillExist).*1).
  - rewrite rangeMap_perm. apply NoDup_fst_map_to_list.
  - apply omap_keys_sublist. intros k x Hk. by destruct (Hraw _ _ Hk).
Qed.

(** X3. The first sample: against an empty old list every port of the new
    sample is added and none is removed. *)
Theorem comparePorts_first_sample (neww : list api.IPPort) :
  guestagent.comparePorts String rangeMap [] neww = (neww, []).
Proof.
  pose proof (comparePorts_new_loop_filter ∅ neww ∅) as Hfilter.
  unfold guestagent.comparePorts. simpl.
  destruct (fold_left _ neww _) as [added mStillExist]. simpl in Hfilter. subst added.
  f_equal.
  - induction neww as [|f neww IH]; [done|].
    rewrite filter_cons, decide_True by apply lookup_empty. by rewrite IH.
  - rewrite removed_loop_omap.
    induction (rangeMap mStillExist) as [|[k b] l IH]; [done|].
    simpl. rewrite lookup_empty. by destruct b.
Qed.

(** The second loop of [compareSockets] adds a sublist of [neww] without
    repetitions. *)
Lemma compareSockets_new_loop_distinct (neww : list string) (mStillExist0 : gmap string bool) :
  let added :=
    (fold_left (λ '(added, mStillExist) k,
                  (match mStillExist !! k with
                   | Some _ => added
                   | None => added ++ [k]
                   end,
                   <[k:=true]> mStillExist))
               neww ([], mStillExist0)).1 in
  added `sublist_of` neww ∧ NoDup added.
Proof.
  induction neww as [|f neww IH] using rev_ind.
  - simpl. split; [done | constructor].
  - simpl in *. rewrite fold_left_app. simpl.
    destruct (fold_left _ neww _) as [added mStillExist] eqn:E. simpl in *.
    destruct IH as [Hsub Hnodup].
    apply compareSockets_new_loop in E as [Hadded Hse].
    destruct (mStillExist !! f) as [b|] eqn:Hf; simpl.
    + split; [|done]. by apply sublist_inserts_r.
    + split; [by apply sublist_app|].
      apply NoDup_app. split_and!; [done | | apply NoDup_singleton].
      intros x Hx Hxf. apply list_elem_of_singleton in Hxf as ->.
      apply Hadded in Hx as [Hx _]. rewrite Hse, decide_True in Hf by done. done.
Qed.

(** X4. The added sockets are the paths of the new sample that are not in
    the old one, each once, in the order of their first occurrence: a path
    listed twice in the new sample is added once. *)
Theorem compareSockets_added_distinct (old neww : list string) :
  let added := (guestagent.compareSockets rangeMap old neww).1 in
  (∀ x, x ∈ added ↔ x ∈ neww ∧ x ∉ old) ∧
  NoDup added ∧
  added `sublist_of` neww.
Proof.
  simpl. split; [apply compareSockets_added|].
  unfold guestagent.compareSockets.
  pose proof (compareSockets_new_loop_distinct neww
                (fold_left (λ mStillExist k, <[k:=false]> mStillExist) old ∅)) as H.
  simpl in H. destruct (fold_left _ neww _) as [added mStillExist]. simpl in *. tauto.
Qed.

End compare_more.

(** ** More on the sampler *)

Section sampler_more.

Import guestagent.

(** The members of the direct-read list. *)
Lemma listening_elem (tcpParsed : list procnettcp.Entry) (res : list api.IPPort)
    (x : api.IPPort) :
  x ∈ listening tcpParsed res ↔
  x ∈ res ∨
  ∃ f, f ∈ tcpParsed ∧
       (procnettcp.Kind_ f = procnettcp.TCP ∨ procnettcp.Kind_ f = procnettcp.TCP6) ∧
       procnettcp.State_ f = procnettcp.TCPListen ∧
       x = api.mkIPPort (procnettcp.IP f) (procnettcp.Port f).
Proof.
  unfold listening. revert res.
  induction tcpParsed as [|f tcpParsed IH]; intros res; simpl.
  - split; [by left|]. intros [?|(f & Hf & _)]; [done|]. by apply elem_of_nil in Hf.
  - rewrite IH. clear IH.
    assert (Hcons : ∀ P : procnettcp.Entry → Prop,
              (∃ g, g ∈ f :: tcpParsed ∧ P g) ↔ P f ∨ ∃ g, g ∈ tcpParsed ∧ P g).
    { intros P. split.
      - intros (g & Hg & HP). apply elem_of_cons in Hg as [->|Hg]; [by left|].
        right. by exists g.
      - intros [HP|(g & Hg & HP)]; [exists f | exists g];
          (split; [|done]); [by left | by right]. }
    rewrite (Hcons (λ g, _ ∧ _ ∧ _)). clear Hcons.
    destruct f as [kind state ip port]; simpl.
    destruct kind, state; simpl; rewrite ?elem_of_app, ?list_elem_of_singleton;
      intuition (try discriminate; try congruence).
Qed.

(** X5. Where the ports of a successful [LocalPorts] come from: every TCP or
    TCP6 entry of the connection tables in the listen state is in the
    result, and every port of the result comes from such an entry or from a
    packet-filter entry; an entry of another kind or in another state puts
    nothing in. *)
Theorem LocalPorts_sources (w : world) (a : agent) (t : list read) res a' t' :
  LocalPorts w a t = ((res, None), a', t') →
  (∀ f, f ∈ (tcpFiles w).1 →
        procnettcp.Kind_ f = procnettcp.TCP ∨ procnettcp.Kind_ f = procnettcp.TCP6 →
        procnettcp.State_ f = procnettcp.TCPListen →
        api.mkIPPort (procnettcp.IP f) (procnettcp.Port f) ∈ res) ∧
  (∀ x, x ∈ res →
        (∃ f, f ∈ (tcpFiles w).1 ∧
              (procnettcp.Kind_ f = procnettcp.TCP ∨ procnettcp.Kind_ f = procnettcp.TCP6) ∧
              procnettcp.State_ f = procnettcp.TCPListen ∧
              x = api.mkIPPort (procnettcp.IP f) (procnettcp.Port f)) ∨
        (∃ ipt, ipt ∈ iptsUsed w a ∧
                x = api.mkIPPort (iptables.IP ipt) (iptables.Port ipt))).
Proof.
  intros Hok. apply LocalPorts_ok in Hok as (_ & _ & _ & -> & _).
  destruct (mergeIPTables_spec (iptsUsed w a) (listening (tcpFiles w).1 []))
    as (extra & -> & Hfrom & _).
  split.
  - intros f Hf Hkind Hstate. apply elem_of_app. left.
    apply listening_elem. right. by exists f.
  - intros x Hx. apply elem_of_app in Hx as [Hx|Hx].
    + left. apply listening_elem in Hx as [Hx|Hx]; [by apply elem_of_nil in Hx | done].
    + right. by apply Hfrom.
Qed.

(** X6. A failing packet-filter query: [LocalPorts] returns the error
    together with the direct-read list gathered so far, and the cached
    packet-filter entries stay as they were. *)
Theorem LocalPorts_iptables_failure (w : world) (a : agent) (t : list read)
    tcpParsed ipts e :
  bigEndian w = false →
  tcpFiles w = (tcpParsed, None) →
  worthCheckingIPTables a = true →
  iptablesPorts w = (ipts, Some e) →
  LocalPorts w a t
  = ((listening tcpParsed [], Some e), a, t ++ [ReadProcNetTCP; ReadIPTables]).
Proof.
  intros Hbe Htcp Hworth Hipt.
  unfold LocalPorts, bind, perform, ret, get.
  rewrite Hbe, Htcp, Hworth, Hipt. by rewrite <- app_assoc.
Qed.

(** X7. The cache of packet-filter entries: after a successful [LocalPorts],
    a call with the flag cleared, on a guest with the same connection
    tables, returns the same ports from the cached entries; it does not query
    the packet filter, whatever the packet filter would answer now. *)
Theorem LocalPorts_cache_reused (w w' : world) (a : agent) (t : list read) res a1 t1 :
  LocalPorts w a t = ((res, None), a1, t1) →
  bigEndian w' = false →
  tcpFiles w' = tcpFiles w →
  LocalPorts w' (mkAgent false (latestIPTables a1)) t1
  = ((res, None), mkAgent false (latestIPTables a1), t1 ++ [ReadProcNetTCP]).
Proof.
  intros Hok Hbe Htcp.
  apply LocalPorts_ok in Hok as (_ & Herr & _ & -> & ->).
  unfold LocalPorts, bind, perform, ret, get. rewrite Hbe, Htcp.
  destruct (tcpFiles w) as [tcpParsed err]. simpl in *. by subst err.
Qed.

(** X8. A successful [LocalSockets] returns the paths of the sockets that
    are unconnected, connecting or connected, and of no other; it reads the
    socket table once and leaves the agent alone. *)
Theorem LocalSockets_ok (w : world) (a : agent) (t : list read) ss a' t' :
  LocalSockets w a t = ((ss, None), a', t') →
  a' = a ∧
  t' = t ++ [ReadProcNetUnix] ∧
  ∀ x, x ∈ ss ↔
       ∃ f, f ∈ (unixFile w).1 ∧
            (procnetunix.State_ f = procnetunix.StateUnconnected ∨
             procnetunix.State_ f = procnetunix.StateConnecting ∨
             procnetunix.State_ f = procnetunix.StateConnected) ∧
            x = procnetunix.Path f.
Proof.
  unfold LocalSockets, bind, perform, ret.
  destruct (unixFile w) as [parsed [e|]]; [by intros [=]|].
  intros [= <- <- <-]. split_and!; [done | done |]. simpl.
  intros x.
  assert (Hgen : ∀ res,
            x ∈ fold_left (λ res f,
                             match procnetunix.State_ f with
                             | procnetunix.StateUnconnected
                             | procnetunix.StateConnecting
                             | procnetunix.StateConnected => res ++ [procnetunix.Path f]
                             | _ => res
                             end) parsed res
            ↔ x ∈ res ∨
              ∃ f, f ∈ parsed ∧
                   (procnetunix.State_ f = procnetunix.StateUnconnected ∨
                    procnetunix.State_ f = procnetunix.StateConnecting ∨
                    procnetunix.State_ f = procnetunix.StateConnected) ∧
                   x = procnetunix.Path f).
  { induction parsed as [|f parsed IH]; intros res; simpl.
    - split; [by left|]. intros [?|(f & Hf & _)]; [done|]. by apply elem_of_nil in Hf.
    - rewrite IH. clear IH. split.
      + intros [Hx|(g & Hg & HP)].
        * destruct f as [state path]; simpl in *.
          destruct state; rewrite ?elem_of_app, ?list_elem_of_singleton in Hx;
            try (by left);
            (destruct Hx as [Hx| ->]; [by left|]; right;
             eexists; split; [by left|]; simpl; tauto).
        * right. exists g. split; [by right | done].
      + intros [Hx|(g & Hg & Hstate & ->)].
        * left. destruct (procnetunix.State_ f); rewrite ?elem_of_app; tauto.
        * apply elem_of_cons in Hg as [->|Hg]; [|right; by exists g].
          left. destruct Hstate as [->|[->| ->]];
            apply elem_of_app; right; by left. }
  rewrite Hgen. split; [|by right]. intros [Hx|?]; [by apply elem_of_nil in Hx | done].
Qed.

End sampler_more.

(** ** More on the event stream *)

Section events_more.

Import guestagent.

Variable String : api.IPPort → string.
Variable rangeMap : gmap string bool → list (string * bool).

(** X9. [Info] is all or nothing: it returns a snapshot exactly when it
    returns no error; unlike [LocalPorts] it never hands out a partial
    result next to an error. *)
Theorem Info_all_or_nothing (w : world) (a : agent) (t : list read) oi err a' t' :
  Info w a t = ((oi, err), a', t') →
  (is_Some oi ↔ err = None).
Proof.
  unfold Info, bind, ret.
  destruct (LocalPorts w a t) as [[[ps [e|]] a1] t1].
  - intros [= <- <- _ _]. split; [by intros [? ?] | done].
  - destruct (LocalSockets w a1 t1) as [[[ss [e|]] a2] t2]; intros [= <- <- _ _].
    + split; [by intros [? ?] | done].
    + split; [done | by eexists].
Qed.

(** X10. [Info] and [collectEvent] agree: when [Info] returns a snapshot,
    [collectEvent] on the same guest, from any previous state, carries
    forward exactly the ports and the sockets of that snapshot, reports no
    error, and leaves the same agent and the same log of reads. *)
Theorem Info_collectEvent_agree (w : world) (st : eventState) (a : agent) (t : list read)
    info err a' t' :
  Info w a t = ((Some info, err), a', t') →
  ∃ ev,
    collectEvent String rangeMap w st a t
    = ((ev, mkEventState (api.LocalPorts info) (api.LocalSockets info)), a', t') ∧
    api.Errors ev = [].
Proof.
  unfold Info, bind, ret.
  destruct (LocalPorts w a t) as [[[ps [e|]] a1] t1] eqn:Hp; [by intros [=]|].
  destruct (LocalSockets w a1 t1) as [[[ss [e|]] a2] t2] eqn:Hs; [by intros [=]|].
  intros [= <- _ <- <-]. simpl.
  eexists. split; [by apply (collectEvent_ok String rangeMap _ _ _ _ _ _ _ _ _ _ Hp Hs)|done].
Qed.

(** An event that carries an error is not empty. *)
Lemma isEventEmpty_errors (ev : api.Event) :
  api.Errors ev ≠ [] → isEventEmpty ev = false.
Proof.
  intros Herr. unfold isEventEmpty. apply bool_decide_eq_false_2.
  intros [= _ _ _ _ Heq]. by rewrite <- Heq in Herr.
Qed.

(** X11. A failed sample is always reported: when the port sample fails, or
    the port sample succeeds and the socket sample fails, the cycle of
    [Events] sends exactly one event, and the error list of that event is
    the one error. *)
Theorem eventsCycle_failure_emitted (w : world) (st : eventState) (ch : list api.Event)
    (a : agent) (t : list read) :
  (∀ ps e a1 t1,
     LocalPorts w a t = ((ps, Some e), a1, t1) →
     ∃ ev newSt,
       eventsCycle String rangeMap w st ch a t = ((newSt, ch ++ [ev]), a1, t1) ∧
       api.Errors ev = [e]) ∧
  (∀ ps a1 t1 ss e a2 t2,
     LocalPorts w a t = ((ps, None), a1, t1) →
     LocalSockets w a1 t1 = ((ss, Some e), a2, t2) →
     ∃ ev newSt,
       eventsCycle String rangeMap w st ch a t = ((newSt, ch ++ [ev]), a2, t2) ∧
       api.Errors ev = [e]).
Proof.
  split.
  - intros ps e a1 t1 Hp. unfold eventsCycle, bind.
    rewrite (collectEvent_ports_failed String rangeMap _ st _ _ _ _ _ _ Hp).
    rewrite isEventEmpty_errors by done. simpl. by eexists _, _.
  - intros ps a1 t1 ss e a2 t2 Hp Hs. unfold eventsCycle, bind.
    rewrite (collectEvent_sockets_failed String rangeMap _ st _ _ _ _ _ _ _ _ _ Hp Hs).
    rewrite isEventEmpty_errors by done. simpl. by eexists _, _.
Qed.

(** One cycle sends at most one event, after the events already sent, and
    never an empty one. *)
Lemma eventsCycle_channel (w : world) (st : eventState) (ch : list api.Event)
    (a : agent) (t : list read) :
  ∃ new, (eventsCycle String rangeMap w st ch a t).1.1.2 = ch ++ new ∧
         (length new ≤ 1)%nat ∧
         Forall (λ ev, isEventEmpty ev = false) new.
Proof.
  unfold eventsCycle, bind, ret.
  destruct (collectEvent String rangeMap w st a t) as [[[ev st'] a'] t'].
  destruct (isEventEmpty ev) eqn:Hempty; simpl.
  - exists []. rewrite app_nil_r. split_and!; [done | simpl; lia | constructor].
  - exists [ev]. split_and!; [done | simpl; lia | by repeat constructor].
Qed.

(** X12. What [Events] sends: the events already on the channel stay in
    front and in order, at most one event is sent per cycle, and no event
    that [isEventEmpty] accepts is ever sent. *)
Theorem eventsLoop_channel (cycles : list cycle) (st : eventState) (ch : list api.Event)
    (a : agent) (t : list read) :
  ∃ new, (eventsLoop String rangeMap cycles st ch a t).1.1 = ch ++ new ∧
         (length new ≤ length cycles)%nat ∧
         Forall (λ ev, isEventEmpty ev = false) new.
Proof.
  revert st ch a t. induction cycles as [|c cycles IH]; intros st ch a t.
  - exists []. simpl. rewrite app_nil_r. split_and!; [done | done | constructor].
  - simpl. unfold bind at 1. unfold trackerWrites, bind, get, put. simpl.
    unfold bind.
    destruct (eventsCycle_channel (cycleWorld c) st ch
                (mkAgent (cycleWorth c) (latestIPTables a)) t) as (new1 & Hch & Hlen & Hne).
    destruct (eventsCycle String rangeMap (cycleWorld c) st ch
                (mkAgent (cycleWorth c) (latestIPTables a)) t) as [[[st1 ch1] a1] t1].
    simpl in Hch. subst ch1.
    destruct (cycleSelect c); simpl.
    + exists new1. split_and!; [done | lia | done].
    + exists new1. split_and!; [done | lia | done].
    + destruct (IH st1 (ch ++ new1) a1 t1) as (new2 & Heq & Hlen2 & Hne2).
      exists (new1 ++ new2). rewrite Heq, app_assoc.
      split_and!; [done | rewrite length_app; lia | by apply Forall_app].
Qed.

(** X13. Cancellation: when the [select] of a cycle receives [ctx.Done()]
    or finds the ticker closed, [Events] returns; the guest is not sampled
    again, whatever cycles would have followed. *)
Theorem eventsLoop_stops (pre : list cycle) (c : cycle) (post : list cycle)
    (st : eventState) (ch : list api.Event) (a : agent) (t : list read) :
  cycleSelect c ≠ Tick →
  eventsLoop String rangeMap (pre ++ c :: post) st ch a t
  = eventsLoop String rangeMap (pre ++ [c]) st ch a t.
Proof.
  intros Hstop. revert st ch a t.
  induction pre as [|p pre IH]; intros st ch a t; simpl.
  - unfold bind.
    destruct (trackerWrites (cycleWorth c) a t) as [[[] a0] t0].
    destruct (eventsCycle String rangeMap (cycleWorld c) st ch a0 t0) as [[[st1 ch1] a1] t1].
    by destruct (cycleSelect c).
  - unfold bind.
    destruct (trackerWrites (cycleWorth p) a t) as [[[] a0] t0].
    destruct (eventsCycle String rangeMap (cycleWorld p) st ch a0 t0) as [[[st1 ch1] a1] t1].
    destruct (cycleSelect p); [done | done | apply IH].
Qed.

End events_more.

(** ** More on the tracker *)

Section tracker_more.

Import guestagent.

(** X14. Only a NETFILTER_CFG message sets the flag: from a state whose flag
    is clear, idle checks, other audit messages and receive errors leave it
    clear, whatever the idle time and the clock readings are. *)
Theorem quiet_keeps_flag_clear (iptablesIdle : Z) (s : tracker)
    (es : list trackerEvent) (s' : tracker) :
  Forall quiet es →
  worthCheckingIPTables_ s = false →
  steps iptablesIdle s es s' →
  worthCheckingIPTables_ s' = false.
Proof.
  intros Hquiet Hflag Hsteps. apply steps_trackerRun in Hsteps as ->.
  revert s Hflag. induction es as [|e es IH]; intros s Hflag; simpl; [done|].
  apply Forall_cons in Hquiet as [He Hquiet]. apply IH; [done|].
  destruct e as [c|[|typ] c|]; simpl in *; try done.
  unfold idleCheck. by destruct (iptablesIdle <=? _).
Qed.

(** X15. The latest notification wins: after any history, a NETFILTER_CFG
    message at [t0] followed by idle checks and by events that set nothing
    leaves the flag set exactly when every idle check since came strictly
    before [t0 + iptablesIdle]; the state before the message plays no part. *)
Theorem latest_notification_wins (iptablesIdle t0 : Z) (s : tracker)
    (before after : list trackerEvent) (s' : tracker) :
  iptablesIdle ≤ golang.maxDuration →
  golang.minDuration ≤ t0 →
  Forall quiet after →
  Forall (λ c, t0 ≤ c ≤ maxClock) (checkTimes after) →
  steps iptablesIdle s (before ++ Received AUDIT_NETFILTER_CFG t0 :: after) s'
  ↔ s' = mkTracker (bool_decide (Forall (λ c, c < t0 + iptablesIdle) (checkTimes after)))
                   (Some t0).
Proof.
  intros HT Ht0 Hquiet Hrange.
  rewrite steps_trackerRun. unfold trackerRun. rewrite fold_left_app. simpl.
  fold (trackerRun iptablesIdle (mkTracker true (Some t0)) after).
  by rewrite trackerRun_quiet.
Qed.

End tracker_more.

(** ** More on [Start] and on the watcher *)

Section start_more.

Import start.

Variable fmtStatus : hostagentapi.Status → string.
Variable fmtQ : string → string.

(** X16. The wait for the pidfile.  While the pidfile is missing and the
    clock has not passed [begin] plus five seconds the loop goes on.  At the
    first poll that ends it: a pidfile that is there yields nil, also when
    the deadline has passed by then; a missing pidfile with the clock
    strictly past the deadline yields the did-not-start-up error.  A poll
    exactly at the deadline does not time out. *)
Theorem waitHostAgentStart_first_decisive (haPIDPath haStderrPath : string) (begin : Z)
    (pre : list poll) :
  Forall (λ p, pidNotExist p = true ∧ pollNow p ≤ begin + 5000000000) pre →
  waitHostAgentStart fmtQ haPIDPath haStderrPath begin pre = None ∧
  (∀ p post,
     pidNotExist p = false →
     waitHostAgentStart fmtQ haPIDPath haStderrPath begin (pre ++ p :: post) = Some None) ∧
  (∀ p post,
     pidNotExist p = true →
     begin + 5000000000 < pollNow p →
     waitHostAgentStart fmtQ haPIDPath haStderrPath begin (pre ++ p :: post)
     = Some (Some ("hostagent (" +:+ fmtQ haPIDPath +:+ ") did not start up in 5s (hint: see "
                   +:+ fmtQ haStderrPath +:+ ")"))).
Proof.
  unfold waitHostAgentStart, deadlineDuration.
  change (5 * 1000000000) with 5000000000.
  intros Hpre. induction pre as [|q pre IH]; simpl.
  - split_and!; [done | |].
    + intros p post ->. done.
    + intros p post -> Hlate. simpl.
      destruct (Z.ltb_spec (begin + 5000000000) (pollNow p)); [done | lia].
  - apply Forall_cons in Hpre as [[Hq Hle] Hpre]. rewrite Hq. simpl.
    destruct (Z.ltb_spec (begin + 5000000000) (pollNow q)); [lia|].
    by apply IH.
Qed.

(** A stream either has no terminal event or splits at its first one. *)
Lemma first_terminal (evs : list hostagentapi.Event) :
  Forall (λ ev, terminal ev = false) evs ∨
  ∃ pre t post, evs = pre ++ t :: post ∧
                Forall (λ ev, terminal ev = false) pre ∧
                terminal t = true.
Proof.
  induction evs as [|ev evs IH]; [left; constructor|].
  destruct (terminal ev) eqn:Hev.
  - right. exists [], ev, evs. split_and!; [done | constructor | done].
  - destruct IH as [IH|(pre & t & post & -> & Hpre & Ht)].
    + left. by constructor.
    + right. exists (ev :: pre), t, post. split_and!; [done | by constructor | done].
Qed.

(** When the watcher returns nil, the first exiting or running event of the
    stream is a running one that is neither degraded nor exiting. *)
Lemma watchHostAgentEvents_nil (instName haStderrPath : string)
    (evs : list hostagentapi.Event) (atEnd : golang.error) :
  (watchHostAgentEvents fmtStatus fmtQ instName haStderrPath evs atEnd).1 = None →
  ∃ pre t post,
    evs = pre ++ t :: post ∧
    Forall (λ ev, terminal ev = false) pre ∧
    hostagentapi.Running (hostagentapi.Status_ t) = true ∧
    hostagentapi.Degraded (hostagentapi.Status_ t) = false ∧
    hostagentapi.Exiting (hostagentapi.Status_ t) = false.
Proof.
  unfold watchHostAgentEvents.
  destruct (first_terminal evs) as [Hall|(pre & t & post & -> & Hpre & Ht)].
  - destruct (WatchEvents_not_terminal fmtStatus fmtQ instName haStderrPath evs watchInit Hall)
      as (s' & Hs' & Herr & Hrun).
    rewrite <- (app_nil_r evs), Hs'. simpl. simpl in Herr, Hrun.
    destruct atEnd as [e|]; [done|]. by rewrite Herr, Hrun.
  - destruct (WatchEvents_not_terminal fmtStatus fmtQ instName haStderrPath pre watchInit Hpre)
      as (s' & Hs' & _ & _).
    rewrite Hs'. simpl.
    destruct (onEvent_terminal fmtStatus fmtQ instName haStderrPath t s' Ht)
      as (s'' & Hs'' & Herr'' & _).
    rewrite Hs''. intros Hnil.
    assert (Hterm : terminalErr fmtStatus fmtQ haStderrPath t = None).
    { rewrite <- Herr''. destruct (err s''); [done|]. done. }
    exists pre, t, post. split; [done|]. split; [done|].
    unfold terminalErr in Hterm. unfold terminal in Ht.
    destruct (hostagentapi.Exiting (hostagentapi.Status_ t)); [done|].
    destruct (hostagentapi.Degraded (hostagentapi.Status_ t)); [done|].
    simpl in Ht. done.
Qed.

(** X17. [Start] returns nil only on a clean start-up: every step before the
    [select] succeeded, the watcher resolved first, and the first exiting or
    running event that the host agent wrote says running, not degraded and
    not exiting. *)
Theorem Start_nil_only_when_running (env : startEnv) :
  Start fmtStatus fmtQ env = Some None →
  reachesSelect fmtQ env ∧
  waitResolvesFirst env = false ∧
  ∃ pre t post,
    events env = pre ++ t :: post ∧
    Forall (λ ev, terminal ev = false) pre ∧
    hostagentapi.Running (hostagentapi.Status_ t) = true ∧
    hostagentapi.Degraded (hostagentapi.Status_ t) = false ∧
    hostagentapi.Exiting (hostagentapi.Status_ t) = false.
Proof.
  unfold Start, reachesSelect, ensureDisk, orReturn.
  destruct (statNotExist env); [|done]. simpl.
  destruct (loadYAML env); [done|].
  destruct (sambaInitConfig env); [done|].
  destruct (generateISO9660 env); [done|].
  destruct (qemuEnsureDisk env); [done|].
  destruct (osExecutable env); [done|].
  destruct (removeStdout env); [done|].
  destruct (removeStderr env); [done|].
  destruct (createStdout env); [done|].
  destruct (createStderr env); [done|].
  destruct (cmdStart env); [done|].
  destruct (waitHostAgentStart _ _ _ _ _) as [[e|]|]; [done | | done].
  destruct (waitResolvesFirst env); [done|].
  intros [= Hnil]. split_and!; try done.
  by apply watchHostAgentEvents_nil in Hnil.
Qed.

End start_more.

Section watch_log.

Import start.

Variable fmtStatus : hostagentapi.Status → string.
Variable fmtQ : string → string.
Variables instName haStderrPath : string.

Lemma portLines_app (l1 l2 : list logLine) :
  portLines (l1 ++ l2) = (portLines l1 + portLines l2)%nat.
Proof. unfold portLines. by rewrite filter_app, length_app. Qed.

Lemma portLines_singleton (l : logLine) :
  portLines [l] = if isPortLine l then 1%nat else 0%nat.
Proof.
  unfold portLines. rewrite filter_cons, filter_nil.
  destruct (isPortLine l); [by rewrite decide_True | by rewrite decide_False].
Qed.

(** [onEvent] announces the port only while [printedSSHLocalPort] is false,
    and sets it when it does. *)
Lemma onEvent_portLines (ev : hostagentapi.Event) (s : watchState) :
  (portLines (logged s) ≤ 1)%nat ∧
  (printedSSHLocalPort s = false → portLines (logged s) = 0%nat) →
  let s' := (onEvent fmtStatus fmtQ instName haStderrPath ev s).2 in
  (portLines (logged s') ≤ 1)%nat ∧
  (printedSSHLocalPort s' = false → portLines (logged s') = 0%nat).
Proof.
  destruct s as [printed running e log]. simpl. intros [Hle Hzero].
  unfold onEvent. simpl.
  destruct printed; simpl;
    destruct (hostagentapi.SSHLocalPort (hostagentapi.Status_ ev) =? 0); simpl;
    destruct (0 <? length (hostagentapi.Errors (hostagentapi.Status_ ev)))%nat; simpl;
    destruct (hostagentapi.Exiting (hostagentapi.Status_ ev)); simpl;
    destruct (hostagentapi.Running (hostagentapi.Status_ ev)); simpl;
    destruct (hostagentapi.Degraded (hostagentapi.Status_ ev)); simpl;
    rewrite ?portLines_app, ?portLines_singleton; simpl;
    (split; [|intros Hp]; try discriminate; try specialize (Hzero eq_refl); lia).
Qed.

Lemma WatchEvents_portLines (evs : list hostagentapi.Event) (atEnd : golang.error)
    (s : watchState) :
  (portLines (logged s) ≤ 1)%nat ∧
  (printedSSHLocalPort s = false → portLines (logged s) = 0%nat) →
  (portLines (logged (hostagentapi.WatchEvents evs atEnd
                        (onEvent fmtStatus fmtQ instName haStderrPath) s).2) ≤ 1)%nat.
Proof.
  revert s. induction evs as [|ev evs IH]; intros s Hinv; simpl; [tauto|].
  pose proof (onEvent_portLines ev s Hinv) as Hinv'. simpl in Hinv'.
  destruct (onEvent fmtStatus fmtQ instName haStderrPath ev s) as [stop s']. simpl in Hinv'.
  destruct stop; simpl; [tauto | by apply IH].
Qed.

(** X18. The SSH local port is announced at most once, however many events
    carry a port and whatever the ports are. *)
Theorem watchHostAgentEvents_port_once (evs : list hostagentapi.Event) (atEnd : golang.error) :
  (portLines (watchHostAgentEvents fmtStatus fmtQ instName haStderrPath evs atEnd).2 ≤ 1)%nat.
Proof.
  unfold watchHostAgentEvents.
  pose proof (WatchEvents_portLines evs atEnd watchInit) as H.
  destruct (hostagentapi.WatchEvents evs atEnd _ watchInit) as [xerr s]. simpl in H.
  assert (Hlog : (portLines (logged s) ≤ 1)%nat).
  { apply H. simpl. split; [unfold portLines; simpl; lia | done]. }
  destruct xerr; [done|]. destruct (err s); [done|].
  by destruct (negb (receivedRunningEvent s)).
Qed.

End watch_log.

(** ** The environment of the guest *)

Section setupEnv_facts.

Import cidata.

Variable rangeEnv : gmap string string → list (string * string).
Hypothesis rangeEnv_perm : ∀ m, rangeEnv m ≡ₚ map_to_list m.

(** Assigning the entries of a map one by one, in any order. *)
Lemma assign_all (yEnv env : gmap string string) (k : string) :
  fold_left (λ env '(name, value), <[name:=value]> env) (rangeEnv yEnv) env !! k
  = yEnv !! k ∪ env !! k.
Proof.
  assert (Hgen : ∀ (l : list (string * string)) (env : gmap string string),
            NoDup l.*1 →
            fold_left (λ env '(name, value), <[name:=value]> env) l env !! k
            = (list_to_map l : gmap string string) !! k ∪ env !! k).
  { clear. induction l as [|[n v] l IH]; intros env Hnodup.
    - simpl. by rewrite lookup_empty, (left_id_L None (∪)).
    - rewrite fmap_cons in Hnodup. apply NoDup_cons in Hnodup as [Hn Hnodup].
      simpl in Hn. cbn [fold_left]. rewrite IH by done.
      rewrite list_to_map_cons, !lookup_insert. simpl.
      case_decide as Hk; [|done].
      subst k. rewrite (not_elem_of_list_to_map_1 _ _ Hn). by destruct (env !! n). }
  assert (Hnodup : NoDup (rangeEnv yEnv).*1).
  { rewrite rangeEnv_perm. apply NoDup_fst_map_to_list. }
  rewrite Hgen by done. f_equal.
  apply option_eq. intros v.
  rewrite <- elem_of_list_to_map by done.
  rewrite rangeEnv_perm. apply elem_of_map_to_list.
Qed.

(** The second loop of [setupEnv], for any list of names. *)
Lemma override_loop (osEnv : gmap string string) (names : list string)
    (env : gmap string string) (log : list logLine) (k : string) :
  (fold_left (λ '(env, log) name,
                match osEnv !! name with
                | Some value =>
                    let log :=
                      match env !! name with
                      | Some old =>
                          if bool_decide (value ≠ old)
                          then log ++ [InfoOverriding name old value]
                          else log
                      | None => log
                      end in
                    (<[name:=value]> env, log)
                | None => (env, log)
                end)
             names (env, log)).1 !! k
  = if decide (k ∈ names) then osEnv !! k ∪ env !! k else env !! k.
Proof.
  induction names as [|name names IH] using rev_ind; [done|].
  rewrite fold_left_app. simpl.
  destruct (fold_left _ names _) as [env1 log1]. simpl in IH.
  destruct (decide (k = name)) as [->|Hne].
  - rewrite (decide_True (P := name ∈ names ++ [name]))
      by (apply elem_of_app; right; by left).
    destruct (osEnv !! name) as [v|] eqn:Hos; simpl.
    + rewrite lookup_insert_eq. by destruct (env !! name).
    + rewrite IH. case_decide; by destruct (env !! name).
  - transitivity (env1 !! k).
    + destruct (osEnv !! name); simpl; [by rewrite lookup_insert_ne|done].
    + rewrite IH. apply decide_ext. rewrite elem_of_app, list_elem_of_singleton. tauto.
Qed.

(** The third loop of [setupEnv], for any list of lowercase names that are
    distinct, have distinct uppercase forms, and none of which is the
    uppercase form of one of them. *)
Lemma sync_loop (ls : list string) (env : gmap string string) (log : list logLine) :
  NoDup ls →
  NoDup (ToUpper <$> ls) →
  (∀ x, x ∈ ls → x ∉ ToUpper <$> ls) →
  let env' :=
    (fold_left (λ '(env, log) lowerName,
                  let upperName := ToUpper lowerName in
                  match env !! lowerName with
                  | Some lowerValue =>
                      let log :=
                        match env !! upperName with
                        | Some upperValue =>
                            if bool_decide (lowerValue ≠ upperValue)
                            then log ++ [WarnChanging upperName upperValue
                                                      lowerValue lowerName]
                            else log
                        | None => log
                        end in
                      (<[upperName:=lowerValue]> env, log)
                  | None =>
                      match env !! upperName with
                      | Some upperValue => (<[lowerName:=upperValue]> env, log)
                      | None => (env, log)
                      end
                  end)
               ls (env, log)).1 in
  (∀ l, l ∈ ls →
        env' !! l = env !! l ∪ env !! ToUpper l ∧
        env' !! ToUpper l = env !! l ∪ env !! ToUpper l) ∧
  (∀ k, k ∉ ls → k ∉ ToUpper <$> ls → env' !! k = env !! k).
Proof.
  induction ls as [|l ls IH] using rev_ind; intros Hnd Hndu Hdisj.
  - simpl. split; [|done]. intros l Hl. by apply elem_of_nil in Hl.
  - apply NoDup_app in Hnd as (Hnd & Hl & _).
    rewrite fmap_app in Hndu. apply NoDup_app in Hndu as (Hndu & Hul & _).
    assert (Hl_ls : l ∉ ls).
    { intros Hin. apply (Hl l Hin). by left. }
    assert (Hul_uls : ToUpper l ∉ ToUpper <$> ls).
    { intros Hin. apply (Hul _ Hin). by left. }
    assert (Hdisj' : ∀ x, x ∈ ls → (x ∉ ToUpper <$> ls) ∧ x ≠ ToUpper l).
    { intros x Hx. assert (Hx' : x ∈ ls ++ [l]) by (apply elem_of_app; by left).
      specialize (Hdisj x Hx'). rewrite fmap_app, elem_of_app in Hdisj. simpl in Hdisj.
      rewrite list_elem_of_singleton in Hdisj. tauto. }
    assert (Hl_u : (l ∉ ToUpper <$> ls) ∧ l ≠ ToUpper l).
    { assert (Hx' : l ∈ ls ++ [l]) by (apply elem_of_app; right; by left).
      specialize (Hdisj l Hx'). rewrite fmap_app, elem_of_app in Hdisj. simpl in Hdisj.
      rewrite list_elem_of_singleton in Hdisj. tauto. }
    destruct Hl_u as [Hl_uls Hl_ul].
    assert (Hul_ls : ToUpper l ∉ ls).
    { intros Hin. by destruct (Hdisj' _ Hin). }
    specialize (IH Hnd Hndu (λ x Hx, proj1 (Hdisj' x Hx))). simpl in IH.
    simpl. rewrite fold_left_app. simpl.
    destruct (fold_left _ ls _) as [env1 log1]. simpl in IH.
    destruct IH as [IHsync IHkeep].
    pose proof (IHkeep l Hl_ls Hl_uls) as Hlow.
    pose proof (IHkeep (ToUpper l) Hul_ls Hul_uls) as Hup.
    set (step := match env1 !! l with
                 | Some lowerValue => _
                 | None => _
                 end).
    assert (Hstep_l : step.1 !! l = env !! l ∪ env !! ToUpper l).
    { unfold step. rewrite Hlow, Hup.
      destruct (env !! l) as [lv|], (env !! ToUpper l) as [uv|]; simpl;
        rewrite ?lookup_insert_eq, ?lookup_insert_ne by done; by rewrite ?Hlow, ?Hup. }
    assert (Hstep_u : step.1 !! ToUpper l = env !! l ∪ env !! ToUpper l).
    { unfold step. rewrite Hlow, Hup.
      destruct (env !! l) as [lv|], (env !! ToUpper l) as [uv|]; simpl;
        rewrite ?lookup_insert_eq, ?lookup_insert_ne by done; by rewrite ?Hlow, ?Hup. }
    assert (Hstep_k : ∀ k, k ≠ l → k ≠ ToUpper l → step.1 !! k = env1 !! k).
    { intros k Hk Hku. unfold step.
      destruct (env1 !! l), (env1 !! ToUpper l); simpl;
        by rewrite ?lookup_insert_ne by done. }
    clearbody step. split.
    + intros x Hx. apply elem_of_app in Hx as [Hx|Hx].
      * destruct (Hdisj' x Hx) as [Hx_uls Hx_ul].
        assert (x ≠ l) by (intros ->; done).
        assert (ToUpper x ≠ ToUpper l).
        { intros Heq. apply Hul_uls. rewrite <- Heq. apply list_elem_of_fmap. by exists x. }
        assert (ToUpper x ≠ l).
        { intros Heq. apply Hl_uls. rewrite <- Heq. apply list_elem_of_fmap. by exists x. }
        rewrite !Hstep_k by done. by apply IHsync.
      * apply list_elem_of_singleton in Hx as ->. done.
    + intros k Hk Hku. rewrite fmap_app, !elem_of_app in *.
      simpl in Hku. rewrite !list_elem_of_singleton in *.
      rewrite Hstep_k by tauto. apply IHkeep; tauto.
Qed.

(** X19. The proxy variables after [setupEnv].  For each of ftp_proxy,
    http_proxy, https_proxy and no_proxy, the lowercase and the uppercase
    variable end up with the same value (or both unset): the value that the
    process environment, else [y.Env], else the system settings give the
    lowercase name and, only when none of them sets the lowercase name, the
    value that they give the uppercase name. *)
Theorem setupEnv_proxy_vars (proxy yEnv osEnv : gmap string string) (lower : string) :
  lower ∈ lowerVars →
  let env := (setupEnv rangeEnv (proxy, None) yEnv osEnv).1.1 in
  env !! lower = pick proxy yEnv osEnv lower ∪ pick proxy yEnv osEnv (ToUpper lower) ∧
  env !! ToUpper lower = env !! lower.
Proof.
  intros Hlower. unfold setupEnv.
  pose proof (override_loop osEnv (lowerVars ++ (ToUpper <$> lowerVars))
                (fold_left (λ env '(name, value), <[name:=value]> env) (rangeEnv yEnv) proxy)
                []) as Hover.
  destruct (fold_left _ (lowerVars ++ (ToUpper <$> lowerVars)) _) as [env2 log2].
  cbn [fst] in Hover.
  assert (Hnd : NoDup lowerVars) by compute_done.
  assert (Hndu : NoDup (ToUpper <$> lowerVars)) by compute_done.
  assert (Hdisj : ∀ x, x ∈ lowerVars → x ∉ ToUpper <$> lowerVars).
  { apply Forall_forall. compute_done. }
  destruct (sync_loop lowerVars env2 log2 Hnd Hndu Hdisj) as [Hsync _].
  destruct (fold_left _ lowerVars (env2, log2)) as [env3 log3]. cbn [fst] in *.
  destruct (Hsync lower Hlower) as [Hl Hu]. rewrite Hl, Hu. split; [|done].
  rewrite !Hover, !assign_all. unfold pick.
  rewrite decide_True by (apply elem_of_app; by left).
  rewrite decide_True; [done|].
  apply elem_of_app; right. apply list_elem_of_fmap. by exists lower.
Qed.

(** X20. The other variables after [setupEnv].  A variable that is not one
    of the eight proxy names has the value of [y.Env] and otherwise the one
    of the system settings; the process environment is not consulted for
    it. *)
Theorem setupEnv_other_vars (proxy yEnv osEnv : gmap string string) (name : string) :
  name ∉ lowerVars ++ (ToUpper <$> lowerVars) →
  (setupEnv rangeEnv (proxy, None) yEnv osEnv).1.1 !! name
  = yEnv !! name ∪ proxy !! name.
Proof.
  intros Hname. unfold setupEnv.
  pose proof (override_loop osEnv (lowerVars ++ (ToUpper <$> lowerVars))
                (fold_left (λ env '(name, value), <[name:=value]> env) (rangeEnv yEnv) proxy)
                []) as Hover.
  destruct (fold_left _ (lowerVars ++ (ToUpper <$> lowerVars)) _) as [env2 log2].
  cbn [fst] in Hover.
  assert (Hnd : NoDup lowerVars) by compute_done.
  assert (Hndu : NoDup (ToUpper <$> lowerVars)) by compute_done.
  assert (Hdisj : ∀ x, x ∈ lowerVars → x ∉ ToUpper <$> lowerVars).
  { apply Forall_forall. compute_done. }
  destruct (sync_loop lowerVars env2 log2 Hnd Hndu Hdisj) as [_ Hkeep].
  destruct (fold_left _ lowerVars (env2, log2)) as [env3 log3]. cbn [fst] in *.
  rewrite elem_of_app in Hname.
  rewrite Hkeep by tauto. rewrite Hover, assign_all.
  rewrite decide_False; [done|]. rewrite elem_of_app. tauto.
Qed.

End setupEnv_facts.

(** ** More on the merge of the packet-filter entries *)

Section merge_more.

Import guestagent.

(** When every packet-filter port is already listed, the merge appends
    nothing. *)
Lemma mergeIPTables_covered (ipts : list iptables.Entry) (res : list api.IPPort) :
  (∀ ipt, ipt ∈ ipts → iptables.Port ipt ∈ api.Port <$> res) →
  mergeIPTables ipts res = res.
Proof.
  unfold mergeIPTables. revert res.
  induction ipts as [|ipt ipts IH]; intros res Hcov; [done|]. simpl.
  assert (Hfound : fold_left (λ found re,
                                if api.Port re =? iptables.Port ipt then true else found)
                             res false = true).
  { apply found_spec. right. apply Hcov. by left. }
  rewrite Hfound. simpl. apply IH. intros i Hi. apply Hcov. by right.
Qed.

(** X21. Merging is idempotent: merging the same packet-filter entries into
    a merged list a second time changes nothing. *)
Theorem mergeIPTables_idempotent (ipts : list iptables.Entry) (res : list api.IPPort) :
  mergeIPTables ipts (mergeIPTables ipts res) = mergeIPTables ipts res.
Proof.
  destruct (mergeIPTables_spec ipts res) as (extra & -> & _ & _ & _ & Hcov).
  by apply mergeIPTables_covered.
Qed.

End merge_more.

(** ** Examples and instances of the further properties *)

Example ToUpper_lowerVars :
  cidata.ToUpper <$> cidata.lowerVars = ["FTP_PROXY"; "HTTP_PROXY"; "HTTPS_PROXY"; "NO_PROXY"].
Proof. reflexivity. Qed.

(** The uppercase HTTP_PROXY of lima.yaml loses against the lowercase
    http_proxy of the system settings; HTTPS_PROXY of the process is copied
    to https_proxy; EDITOR is taken from lima.yaml, not from the process. *)
Example setupEnv_example :
  (cidata.setupEnv map_to_list (sample.proxySettings, None) sample.yamlEnv sample.processEnv).1.1
  = {[ "http_proxy" := "http://system:3128"; "HTTP_PROXY" := "http://system:3128";
       "https_proxy" := "http://process:3128"; "HTTPS_PROXY" := "http://process:3128";
       "EDITOR" := "vi" ]}.
Proof. by vm_compute. Qed.

Lemma comparePorts_removed_distinct_witness :
  (∀ m : gmap string bool, map_to_list m ≡ₚ map_to_list m) ∧
  NoDup (api.dottedString <$>
           (guestagent.comparePorts api.dottedString map_to_list
              [sample.p80; sample.p80; sample.p443] [sample.p443]).2).
Proof.
  split; [reflexivity|].
  exact (comparePorts_removed_distinct api.dottedString map_to_list (λ m, reflexivity _)
           [sample.p80; sample.p80; sample.p443] [sample.p443]).
Defined.

Lemma LocalPorts_sources_witness :
  guestagent.LocalPorts sample.guest sample.agent0 []
  = (([sample.p80; sample.p8080], None), sample.agent1,
     [guestagent.ReadProcNetTCP; guestagent.ReadIPTables]) ∧
  sample.p80 ∈ [sample.p80; sample.p8080].
Proof.
  split; [reflexivity|].
  apply (proj1 (LocalPorts_sources sample.guest sample.agent0 []
                  [sample.p80; sample.p8080] sample.agent1
                  [guestagent.ReadProcNetTCP; guestagent.ReadIPTables] eq_refl)
           (procnettcp.mkEntry procnettcp.TCP procnettcp.TCPListen sample.localhost 80)).
  - by left.
  - by left.
  - reflexivity.
Defined.

Lemma LocalPorts_iptables_failure_witness :
  guestagent.LocalPorts sample.iptablesFails sample.agent1 []
  = (([sample.p80], Some "iptables: exit status 1"), sample.agent1,
     [guestagent.ReadProcNetTCP; guestagent.ReadIPTables]).
Proof.
  exact (LocalPorts_iptables_failure sample.iptablesFails sample.agent1 []
           (guestagent.tcpFiles sample.guest).1 [] "iptables: exit status 1"
           eq_refl eq_refl eq_refl eq_refl).
Defined.

(** The packet filter fails now, but the flag is clear and the cache answers. *)
Lemma LocalPorts_cache_reused_witness :
  guestagent.LocalPorts sample.iptablesFails
    (guestagent.mkAgent false (guestagent.latestIPTables sample.agent1))
    [guestagent.ReadProcNetTCP; guestagent.ReadIPTables]
  = (([sample.p80; sample.p8080], None),
     guestagent.mkAgent false (guestagent.latestIPTables sample.agent1),
     [guestagent.ReadProcNetTCP; guestagent.ReadIPTables] ++ [guestagent.ReadProcNetTCP]).
Proof.
  exact (LocalPorts_cache_reused sample.guest sample.iptablesFails sample.agent0 []
           [sample.p80; sample.p8080] sample.agent1
           [guestagent.ReadProcNetTCP; guestagent.ReadIPTables]
           eq_refl eq_refl eq_refl).
Defined.

Lemma LocalSockets_ok_witness :
  guestagent.LocalSockets sample.guest sample.agent1 []
  = ((["/run/docker.sock"], None), sample.agent1, [guestagent.ReadProcNetUnix]) ∧
  ∃ f, f ∈ (guestagent.unixFile sample.guest).1 ∧
       (procnetunix.State_ f = procnetunix.StateUnconnected ∨
        procnetunix.State_ f = procnetunix.StateConnecting ∨
        procnetunix.State_ f = procnetunix.StateConnected) ∧
       "/run/docker.sock" = procnetunix.Path f.
Proof.
  split; [reflexivity|].
  apply (proj2 (proj2 (LocalSockets_ok sample.guest sample.agent1 []
                         ["/run/docker.sock"] sample.agent1 [guestagent.ReadProcNetUnix]
                         eq_refl))).
  by left.
Defined.

Lemma Info_all_or_nothing_witness :
  is_Some (Some (api.mkInfo [sample.p80; sample.p8080] ["/run/docker.sock"]))
  ↔ (None : golang.error) = None.
Proof.
  exact (Info_all_or_nothing sample.guest sample.agent0 []
           (Some (api.mkInfo [sample.p80; sample.p8080] ["/run/docker.sock"])) None
           sample.agent1
           [guestagent.ReadProcNetTCP; guestagent.ReadIPTables; guestagent.ReadProcNetUnix]
           eq_refl).
Defined.

Lemma Info_collectEvent_agree_witness :
  ∃ ev,
    guestagent.collectEvent api.dottedString map_to_list sample.guest
      guestagent.zeroEventState sample.agent0 []
    = ((ev, guestagent.mkEventState [sample.p80; sample.p8080] ["/run/docker.sock"]),
       sample.agent1,
       [guestagent.ReadProcNetTCP; guestagent.ReadIPTables; guestagent.ReadProcNetUnix]) ∧
    api.Errors ev = [].
Proof.
  exact (Info_collectEvent_agree api.dottedString map_to_list sample.guest
           guestagent.zeroEventState sample.agent0 []
           (api.mkInfo [sample.p80; sample.p8080] ["/run/docker.sock"]) None
           sample.agent1
           [guestagent.ReadProcNetTCP; guestagent.ReadIPTables; guestagent.ReadProcNetUnix]
           eq_refl).
Defined.

Lemma eventsCycle_failure_emitted_witness :
  (∃ ev newSt,
     guestagent.eventsCycle api.dottedString map_to_list sample.tcpFails sample.st1 []
                            sample.agent1 []
     = ((newSt, [] ++ [ev]), sample.agent1, [guestagent.ReadProcNetTCP]) ∧
     api.Errors ev = ["open /proc/net/tcp: permission denied"]) ∧
  (∃ ev newSt,
     guestagent.eventsCycle api.dottedString map_to_list sample.unixFails sample.st1 []
                            sample.agent1 []
     = ((newSt, [] ++ [ev]), sample.agent1,
        [guestagent.ReadProcNetTCP; guestagent.ReadIPTables; guestagent.ReadProcNetUnix]) ∧
     api.Errors ev = ["open /proc/net/unix: permission denied"]).
Proof.
  split.
  - exact (proj1 (eventsCycle_failure_emitted api.dottedString map_to_list
                    sample.tcpFails sample.st1 [] sample.agent1 [])
             [] "open /proc/net/tcp: permission denied" sample.agent1
             [guestagent.ReadProcNetTCP] eq_refl).
  - exact (proj2 (eventsCycle_failure_emitted api.dottedString map_to_list
                    sample.unixFails sample.st1 [] sample.agent1 [])
             [sample.p80; sample.p8080] sample.agent1
             [guestagent.ReadProcNetTCP; guestagent.ReadIPTables]
             [] "open /proc/net/unix: permission denied" sample.agent1
             [guestagent.ReadProcNetTCP; guestagent.ReadIPTables; guestagent.ReadProcNetUnix]
             eq_refl eq_refl).
Defined.

(** The context is cancelled after the second cycle: the third is not run. *)
Lemma eventsLoop_stops_witness :
  guestagent.CtxDone ≠ guestagent.Tick ∧
  guestagent.eventsLoop api.dottedString map_to_list
    ([guestagent.mkCycle sample.guest true guestagent.Tick]
     ++ guestagent.mkCycle sample.guest true guestagent.CtxDone
     :: [guestagent.mkCycle sample.tcpFails true guestagent.Tick])
    guestagent.zeroEventState [] sample.agent0 []
  = guestagent.eventsLoop api.dottedString map_to_list
      ([guestagent.mkCycle sample.guest true guestagent.Tick]
       ++ [guestagent.mkCycle sample.guest true guestagent.CtxDone])
      guestagent.zeroEventState [] sample.agent0 [].
Proof.
  assert (Hstop : guestagent.CtxDone ≠ guestagent.Tick) by discriminate.
  split; [exact Hstop|].
  exact (eventsLoop_stops api.dottedString map_to_list
           [guestagent.mkCycle sample.guest true guestagent.Tick]
           (guestagent.mkCycle sample.guest true guestagent.CtxDone)
           [guestagent.mkCycle sample.tcpFails true guestagent.Tick]
           guestagent.zeroEventState [] sample.agent0 [] Hstop).
Defined.

Lemma quiet_keeps_flag_clear_witness :
  guestagent.steps 30000000000 guestagent.trackerInit
    [guestagent.IdleCheck 5; guestagent.Received (guestagent.AuditOther 1300) 7;
     guestagent.ReceiveFailed]
    guestagent.trackerInit ∧
  guestagent.worthCheckingIPTables_ guestagent.trackerInit = false.
Proof.
  assert (Hsteps : guestagent.steps 30000000000 guestagent.trackerInit
                     [guestagent.IdleCheck 5;
                      guestagent.Received (guestagent.AuditOther 1300) 7;
                      guestagent.ReceiveFailed]
                     guestagent.trackerInit).
  { apply steps_trackerRun. reflexivity. }
  split; [exact Hsteps|].
  apply (quiet_keeps_flag_clear 30000000000 guestagent.trackerInit
           [guestagent.IdleCheck 5; guestagent.Received (guestagent.AuditOther 1300) 7;
            guestagent.ReceiveFailed]
           guestagent.trackerInit).
  - repeat constructor.
  - reflexivity.
  - exact Hsteps.
Defined.

(** A second notification at second 50 restarts the idle time of 30 s: the
    check at second 60 leaves the flag set. *)
Lemma latest_notification_wins_witness :
  guestagent.steps 30000000000 guestagent.trackerInit
    ([guestagent.Received guestagent.AUDIT_NETFILTER_CFG 1000000000;
      guestagent.IdleCheck 30000000000]
     ++ guestagent.Received guestagent.AUDIT_NETFILTER_CFG 50000000000
     :: [guestagent.IdleCheck 60000000000])
    (guestagent.mkTracker true (Some 50000000000)).
Proof.
  apply (latest_notification_wins 30000000000 50000000000 guestagent.trackerInit
           [guestagent.Received guestagent.AUDIT_NETFILTER_CFG 1000000000;
            guestagent.IdleCheck 30000000000]
           [guestagent.IdleCheck 60000000000]
           (guestagent.mkTracker true (Some 50000000000))).
  - by vm_compute.
  - by vm_compute.
  - repeat constructor.
  - repeat constructor; by vm_compute.
  - reflexivity.
Defined.

(** The pidfile is missing at second 1 and still at second 5 sharp, which is
    not past the deadline; it is there at second 6. *)
Lemma waitHostAgentStart_first_decisive_witness :
  Forall (λ p, start.pidNotExist p = true ∧ start.pollNow p ≤ 0 + 5000000000)
         [start.mkPoll true 1000000000; start.mkPoll true 5000000000] ∧
  start.waitHostAgentStart sample.fmtQ "/lima/default/ha.pid" "/lima/default/ha.stderr.log" 0
    [start.mkPoll true 1000000000; start.mkPoll true 5000000000] = None ∧
  start.waitHostAgentStart sample.fmtQ "/lima/default/ha.pid" "/lima/default/ha.stderr.log" 0
    ([start.mkPoll true 1000000000; start.mkPoll true 5000000000]
     ++ start.mkPoll false 6000000000 :: []) = Some None.
Proof.
  assert (Hpre : Forall (λ p, start.pidNotExist p = true
                              ∧ start.pollNow p ≤ 0 + 5000000000)
                        [start.mkPoll true 1000000000; start.mkPoll true 5000000000]).
  { repeat constructor; by vm_compute. }
  pose proof (waitHostAgentStart_first_decisive sample.fmtQ
                "/lima/default/ha.pid" "/lima/default/ha.stderr.log" 0
                [start.mkPoll true 1000000000; start.mkPoll true 5000000000] Hpre)
    as (Hnone & Hfound & _).
  split_and!; [exact Hpre | exact Hnone |].
  exact (Hfound (start.mkPoll false 6000000000) [] eq_refl).
Defined.

Lemma Start_nil_only_when_running_witness :
  start.Start sample.fmtStatus sample.fmtQ sample.readyHost = Some None ∧
  start.waitResolvesFirst sample.readyHost = false.
Proof.
  assert (Hnil : start.Start sample.fmtStatus sample.fmtQ sample.readyHost = Some None).
  { by vm_compute. }
  split; [exact Hnil|].
  exact (proj1 (proj2 (Start_nil_only_when_running sample.fmtStatus sample.fmtQ
                         sample.readyHost Hnil))).
Defined.

Lemma setupEnv_proxy_vars_witness :
  (∀ m : gmap string string, map_to_list m ≡ₚ map_to_list m) ∧
  "http_proxy" ∈ cidata.lowerVars ∧
  let env := (cidata.setupEnv map_to_list (sample.proxySettings, None)
                sample.yamlEnv sample.processEnv).1.1 in
  env !! "http_proxy"
  = cidata.pick sample.proxySettings sample.yamlEnv sample.processEnv "http_proxy"
    ∪ cidata.pick sample.proxySettings sample.yamlEnv sample.processEnv
        (cidata.ToUpper "http_proxy") ∧
  env !! cidata.ToUpper "http_proxy" = env !! "http_proxy".
Proof.
  assert (Hin : "http_proxy" ∈ cidata.lowerVars) by (right; left).
  split_and!; [reflexivity | exact Hin |].
  exact (setupEnv_proxy_vars map_to_list (λ m, reflexivity _)
           sample.proxySettings sample.yamlEnv sample.processEnv "http_proxy" Hin).
Defined.

Lemma setupEnv_other_vars_witness :
  (∀ m : gmap string string, map_to_list m ≡ₚ map_to_list m) ∧
  ("EDITOR" ∉ cidata.lowerVars ++ (cidata.ToUpper <$> cidata.lowerVars)) ∧
  (cidata.setupEnv map_to_list (sample.proxySettings, None)
     sample.yamlEnv sample.processEnv).1.1 !! "EDITOR"
  = sample.yamlEnv !! "EDITOR" ∪ sample.proxySettings !! "EDITOR".
Proof.
  assert (Hout : "EDITOR" ∉ cidata.lowerVars ++ (cidata.ToUpper <$> cidata.lowerVars)).
  { compute_done. }
  split_and!; [reflexivity | exact Hout |].
  exact (setupEnv_other_vars map_to_list (λ m, reflexivity _)
           sample.proxySettings sample.yamlEnv sample.processEnv "EDITOR" Hout).
Defined.
